(** * zinternal: the C logger (src/logger.h, src/logger.c)

    A shallow embedding of the logger's global state, its spin lock and its
    public operations, followed by the properties of the specification.

    - The three globals [g_lock], [g_output], [g_level] form a record that
      every operation threads through a small state-and-failure monad.
    - The C library is outside the repository.  Calls to [vfprintf],
      [fflush] and [fclose] are recorded, in order, in a trace of events;
      the text [vfprintf] produces is a parameter of the development.
    - [assert] is the macro of [<assert.h>]: unless the build defines
      [NDEBUG], a failed assertion makes the C library write a diagnostic to
      the standard error stream and call [abort()].  The flag is a parameter
      as well; the diagnostic, whose text the implementation chooses, is an
      event of the trace.
    - The [while (1)] loop of [spinlock_lock] is a fuelled loop in the
      sequential model.
    - For the interplay of several threads, each emission call is cut into
      steps, one per access to the globals and one per byte written, and a
      schedule interleaves the steps of the threads. *)

From Stdlib Require Import ZArith List String Ascii Bool Lia Permutation.
From Stdlib Require Import DecimalString.
Import ListNotations.
Local Open Scope Z_scope.

(** ** logger.h *)

(** [typedef enum { ZLOG_TRACE = 0, ... } ZlogLevel;] the levels travel as
    [int] everywhere in the code, which only compares them: an [int] is an
    integer of [Z]. *)
Definition ZLOG_TRACE : Z := 0.
Definition ZLOG_DEBUG : Z := 1.
Definition ZLOG_INFO  : Z := 2.
Definition ZLOG_WARN  : Z := 3.
Definition ZLOG_ERR   : Z := 4.
Definition ZLOG_FATAL : Z := 5.

(** A [FILE] is an opaque handle; a [FILE *] is [None] for [NULL]. *)
Definition FILE := nat.
Definition stdout : FILE := 1%nat.
Definition stderr : FILE := 2%nat.

(** The arguments behind the [...] of the emission functions. *)
Inductive vararg : Type :=
| VInt (n : Z)
| VStr (s : string)
| VChar (c : ascii).

Definition va_list := list vararg.

(** ** The C library, as seen from the logger *)

Inductive event : Type :=
| Ev_vfprintf (f : FILE) (text : string)
| Ev_fflush (f : FILE)
| Ev_fclose (f : FILE)
| Ev_assert_fail.
(* [Ev_assert_fail]: the diagnostic of a failed [assert], which the C library
   writes to the standard error stream before it calls [abort()]. *)

Definition trace := list event.

(** The texts the logger's [vfprintf] calls handed to stream [f], one entry
    per call.  The diagnostic of a failed [assert] is no [vfprintf] of the
    logger: it is the event [Ev_assert_fail], see [stream_calls]. *)
Fixpoint writes_to (f : FILE) (t : trace) : list string :=
  match t with
  | [] => []
  | Ev_vfprintf g text :: t' =>
      if Nat.eqb g f then text :: writes_to f t' else writes_to f t'
  | _ :: t' => writes_to f t'
  end.

(** All bytes a stream received from the logger's [vfprintf] calls. *)
Definition received (f : FILE) (t : trace) : string :=
  fold_right append EmptyString (writes_to f t).

(** The streams on which [fclose] was called. *)
Fixpoint closes (t : trace) : list FILE :=
  match t with
  | [] => []
  | Ev_fclose f :: t' => f :: closes t'
  | _ :: t' => closes t'
  end.

(** ** Spinlock Implementation *)

(** [__sync_bool_compare_and_swap(lock, oldv, newv)] on the cell's content:
    the success flag and the new content. *)
Definition sync_bool_compare_and_swap (lock oldv newv : Z) : bool * Z :=
  if lock =? oldv then (true, newv) else (false, lock).

(** [spinlock_lock]: retry the compare-and-swap until it succeeds.  With no
    other thread running, [sched_yield] leaves the cell as it is.  [None]
    when the fuel is exhausted. *)
Fixpoint spinlock_lock (fuel : nat) (lock : Z) : option Z :=
  match fuel with
  | O => None
  | S fuel' =>
      let '(ok, lock') := sync_bool_compare_and_swap lock 0 1 in
      if ok then Some lock' else spinlock_lock fuel' lock'
  end.

(** [*lock = 0;] *)
Definition spinlock_unlock (lock : Z) : Z := 0.

(** ** Global State *)

Record logger : Type := mkLogger {
  g_lock   : Z;
  g_output : option FILE;
  g_level  : Z
}.

(** [static spinlock_t g_lock = 0; static FILE *g_output = NULL;
    static int g_level = ZLOG_INFO;] *)
Definition logger0 : logger :=
  {| g_lock := 0; g_output := None; g_level := ZLOG_INFO |}.

Definition with_lock (l : Z) (s : logger) : logger :=
  {| g_lock := l; g_output := g_output s; g_level := g_level s |}.
Definition with_output (o : option FILE) (s : logger) : logger :=
  {| g_lock := g_lock s; g_output := o; g_level := g_level s |}.
Definition with_level (v : Z) (s : logger) : logger :=
  {| g_lock := g_lock s; g_output := g_output s; g_level := v |}.

(** ** Outcomes of a call *)

Inductive outcome (A : Type) : Type :=
| Returned (a : A) (s : logger) (t : trace)
| Aborted (s : logger) (t : trace)
| Spins (s : logger) (t : trace).

Arguments Returned {A} a s t.
Arguments Aborted {A} s t.
Arguments Spins {A} s t.

Definition M (A : Type) : Type := logger -> trace -> outcome A.

Definition ret {A} (a : A) : M A := fun s t => Returned a s t.

Definition bind {A B} (c : M A) (k : A -> M B) : M B :=
  fun s t =>
    match c s t with
    | Returned a s' t' => k a s' t'
    | Aborted s' t' => Aborted s' t'
    | Spins s' t' => Spins s' t'
    end.

Notation "x <- c ;; k" := (bind c (fun x => k))
  (at level 61, c at next level, right associativity).
Notation "c ;; k" := (bind c (fun _ => k))
  (at level 61, right associativity).

Definition state_of {A} (o : outcome A) : logger :=
  match o with
  | Returned _ s _ | Aborted s _ | Spins s _ => s
  end.

Definition trace_of {A} (o : outcome A) : trace :=
  match o with
  | Returned _ _ t | Aborted _ t | Spins _ t => t
  end.

Definition read {A} (field : logger -> A) : M A :=
  fun s t => Returned (field s) s t.
Definition store_output (o : option FILE) : M unit :=
  fun s t => Returned tt (with_output o s) t.
Definition store_level (v : Z) : M unit :=
  fun s t => Returned tt (with_level v s) t.
Definition emit_event (e : event) : M unit :=
  fun s t => Returned tt s (t ++ [e]).

Definition is_null (p : option FILE) : bool :=
  match p with
  | None => true
  | Some _ => false
  end.

Section Logger.

(** Whether the build defines [NDEBUG] (assertions compiled out). *)
Variable NDEBUG : bool.
(** Iterations granted to the spin loop. *)
Variable spin_fuel : nat.
(** The text [vfprintf] renders from a format and its arguments. *)
Variable render : string -> va_list -> string.

Definition assert (cond : bool) : M unit :=
  fun s t =>
    if NDEBUG || cond then Returned tt s t
    else Aborted s (t ++ [Ev_assert_fail]).

Definition vfprintf (f : FILE) (fmt : string) (args : va_list) : M unit :=
  emit_event (Ev_vfprintf f (render fmt args)).
Definition fflush (f : FILE) : M unit := emit_event (Ev_fflush f).
Definition fclose (f : FILE) : M unit := emit_event (Ev_fclose f).

(** [spinlock_lock(&g_lock)] and [spinlock_unlock(&g_lock)]. *)
Definition lock_g_lock : M unit :=
  fun s t =>
    match spinlock_lock spin_fuel (g_lock s) with
    | Some l => Returned tt (with_lock l s) t
    | None => Spins s t
    end.
Definition unlock_g_lock : M unit :=
  fun s t => Returned tt (with_lock (spinlock_unlock (g_lock s)) s) t.

(** ** Helper Functions *)

Definition get_output : M FILE :=
  out <- read g_output ;;
  ret (match out with Some f => f | None => stderr end).

Definition validate_level (level : Z) : Z :=
  if (level >=? ZLOG_TRACE) && (level <=? ZLOG_FATAL) then level
  else ZLOG_INFO.

(** ** Public API *)

Definition zlog_init (out : option FILE) (level : Z) : M unit :=
  lock_g_lock ;;
  store_output (Some (match out with Some f => f | None => stderr end)) ;;
  store_level (validate_level level) ;;
  unlock_g_lock.

Definition zlog_shutdown : M unit :=
  lock_g_lock ;;
  out <- read g_output ;;
  match out with
  | Some f => if Nat.eqb f stderr then ret tt else fclose f
  | None => ret tt
  end ;;
  store_output None ;;
  unlock_g_lock.

Definition zlog_get_level : M Z := read g_level.

Definition zlog_set_level (level : Z) : M unit :=
  lock_g_lock ;;
  store_level (validate_level level) ;;
  unlock_g_lock.

(** ** Logging Functions *)

Definition zlog_write (level : Z) (fmt : string) (args : va_list) : M unit :=
  out <- read g_output ;;
  assert (negb (is_null out)) ;;
  lock_g_lock ;;
  out <- read g_output ;;
  cur <- read g_level ;;
  match out with
  | Some f =>
      if level >=? cur then vfprintf f fmt args ;; fflush f else ret tt
  | None => ret tt
  end ;;
  unlock_g_lock.

Definition zlog_trace (fmt : string) (args : va_list) : M unit :=
  cur <- read g_level ;;
  if ZLOG_TRACE <? cur then ret tt else zlog_write ZLOG_TRACE fmt args.

Definition zlog_debug (fmt : string) (args : va_list) : M unit :=
  cur <- read g_level ;;
  if ZLOG_DEBUG <? cur then ret tt else zlog_write ZLOG_DEBUG fmt args.

Definition zlog_info (fmt : string) (args : va_list) : M unit :=
  cur <- read g_level ;;
  if ZLOG_INFO <? cur then ret tt else zlog_write ZLOG_INFO fmt args.

Definition zlog_warn (fmt : string) (args : va_list) : M unit :=
  cur <- read g_level ;;
  if ZLOG_WARN <? cur then ret tt else zlog_write ZLOG_WARN fmt args.

Definition zlog_err (fmt : string) (args : va_list) : M unit :=
  cur <- read g_level ;;
  if ZLOG_ERR <? cur then ret tt else zlog_write ZLOG_ERR fmt args.

Definition zlog_fatal (fmt : string) (args : va_list) : M unit :=
  cur <- read g_level ;;
  if ZLOG_FATAL <? cur then ret tt else zlog_write ZLOG_FATAL fmt args.

End Logger.

(** ** The six emission operations, and call histories *)

Inductive emission : Type :=
| Trace | Debug | Info | Warn | Err | Fatal.

Definition severity (e : emission) : Z :=
  match e with
  | Trace => ZLOG_TRACE
  | Debug => ZLOG_DEBUG
  | Info => ZLOG_INFO
  | Warn => ZLOG_WARN
  | Err => ZLOG_ERR
  | Fatal => ZLOG_FATAL
  end.

Inductive call : Type :=
| Call_init (out : option FILE) (level : Z)
| Call_shutdown
| Call_get_level
| Call_set_level (level : Z)
| Call_emit (e : emission) (fmt : string) (args : va_list).

Section Calls.

Variable NDEBUG : bool.
Variable spin_fuel : nat.
Variable render : string -> va_list -> string.

Definition zlog_emit (e : emission) : string -> va_list -> M unit :=
  match e with
  | Trace => zlog_trace NDEBUG spin_fuel render
  | Debug => zlog_debug NDEBUG spin_fuel render
  | Info => zlog_info NDEBUG spin_fuel render
  | Warn => zlog_warn NDEBUG spin_fuel render
  | Err => zlog_err NDEBUG spin_fuel render
  | Fatal => zlog_fatal NDEBUG spin_fuel render
  end.

Definition do_call (c : call) : M unit :=
  match c with
  | Call_init out level => zlog_init spin_fuel out level
  | Call_shutdown => zlog_shutdown spin_fuel
  | Call_get_level => zlog_get_level ;; ret tt
  | Call_set_level level => zlog_set_level spin_fuel level
  | Call_emit e fmt args => zlog_emit e fmt args
  end.

Fixpoint run (cs : list call) : M unit :=
  match cs with
  | [] => ret tt
  | c :: cs' => do_call c ;; run cs'
  end.

End Calls.

(** ** A rendering function for concrete runs

    The conversions [%d], [%s], [%c] and [%%] of the C library's [printf]
    family; any other text is copied as it is. *)

Definition decimal (n : Z) : string := NilZero.string_of_int (Z.to_int n).

Fixpoint printf_text (fmt : string) (args : va_list) : string :=
  match fmt with
  | EmptyString => EmptyString
  | String "%"%char (String c rest) =>
      match c, args with
      | "%"%char, _ => String "%"%char (printf_text rest args)
      | "d"%char, VInt n :: args' => (decimal n ++ printf_text rest args')%string
      | "s"%char, VStr s :: args' => (s ++ printf_text rest args')%string
      | "c"%char, VChar a :: args' => String a (printf_text rest args')
      | _, _ => String "%"%char (String c (printf_text rest args))
      end
  | String c rest => String c (printf_text rest args)
  end.

(** ** Threads

    Several threads, each inside one emission call, over the shared
    globals.  One step of a thread is one access to shared memory or one
    byte handed to the stream: [vfprintf] is not taken to be atomic, the
    text reaches the stream byte by byte.  The wire holds the bytes of the
    [vfprintf] calls only.  A failed [assert] takes its thread to [PAbort]:
    there the C library writes its diagnostic to the standard error stream
    and ends the process, so the steps the scheduler still grants to the
    other threads are steps the program does not take. *)

Inductive pc : Type :=
| PFast                        (* zlog_<level>: if (ZLOG_<LEVEL> < g_level) return; *)
| PAssert                      (* zlog_write: assert(g_output != NULL) *)
| PCas                         (* spinlock_lock: the compare-and-swap *)
| PYield                       (* spinlock_lock: sched_yield() *)
| PCheck                       (* if (g_output && level >= g_level) *)
| PWrite (f : FILE) (n : nat)  (* in vfprintf, [n] bytes handed to [f] *)
| PFlush                       (* fflush(g_output) *)
| PUnlock                      (* spinlock_unlock(&g_lock) *)
| PDone                        (* returned *)
| PAbort.                      (* assert failed: diagnostic, abort() *)

Record thread : Type := mkThread {
  th_op   : emission;
  th_fmt  : string;
  th_args : va_list;
  th_pc   : pc
}.

Definition at_pc (p : pc) (th : thread) : thread :=
  {| th_op := th_op th; th_fmt := th_fmt th; th_args := th_args th;
     th_pc := p |}.

Record system : Type := mkSystem {
  shared  : logger;
  wire    : list (FILE * ascii);
  threads : list thread
}.

(** The bytes stream [f] has received. *)
Definition sink_bytes (f : FILE) (w : list (FILE * ascii)) : list ascii :=
  map snd (filter (fun e => Nat.eqb (fst e) f) w).

Section Threads.

Variable NDEBUG : bool.
Variable render : string -> va_list -> string.

Definition text_of (th : thread) : list ascii :=
  list_ascii_of_string (render (th_fmt th) (th_args th)).

Definition thread_step (th : thread) (s : logger)
  : logger * list (FILE * ascii) * pc :=
  match th_pc th with
  | PFast =>
      (s, [], if severity (th_op th) <? g_level s then PDone else PAssert)
  | PAssert =>
      (s, [], if NDEBUG || negb (is_null (g_output s)) then PCas else PAbort)
  | PCas =>
      let '(ok, l) := sync_bool_compare_and_swap (g_lock s) 0 1 in
      (with_lock l s, [], if ok then PCheck else PYield)
  | PYield => (s, [], PCas)
  | PCheck =>
      match g_output s with
      | Some f =>
          if severity (th_op th) >=? g_level s
          then (s, [], PWrite f 0)
          else (s, [], PUnlock)
      | None => (s, [], PUnlock)
      end
  | PWrite f n =>
      match nth_error (text_of th) n with
      | Some c => (s, [(f, c)], PWrite f (S n))
      | None => (s, [], PFlush)
      end
  | PFlush => (s, [], PUnlock)
  | PUnlock => (with_lock (spinlock_unlock (g_lock s)) s, [], PDone)
  | PDone => (s, [], PDone)
  | PAbort => (s, [], PAbort)
  end.

(** The scheduler lets thread [k] take one step. *)
Definition sys_step (k : nat) (c : system) : system :=
  match nth_error (threads c) k with
  | None => c
  | Some th =>
      let '(s', out, p') := thread_step th (shared c) in
      {| shared := s';
         wire := wire c ++ out;
         threads := firstn k (threads c) ++ at_pc p' th
                      :: skipn (S k) (threads c) |}
  end.

Fixpoint sys_run (sched : list nat) (c : system) : system :=
  match sched with
  | [] => c
  | k :: sched' => sys_run sched' (sys_step k c)
  end.

End Threads.

(** Each thread enters one emission call. *)
Definition spawn (jobs : list (emission * string * va_list)) (s : logger)
  : system :=
  {| shared := s;
     wire := [];
     threads := map (fun j => mkThread (fst (fst j)) (snd (fst j)) (snd j) PFast)
                    jobs |}.


(** ** Notions used by the properties *)

(** A member of the enumeration [ZlogLevel]. *)
Definition valid_level (level : Z) : Prop :=
  ZLOG_TRACE <= level <= ZLOG_FATAL.

Definition level_ok (s : logger) : Prop := valid_level (g_level s).

(** What [zlog_shutdown] hands to [fclose]. *)
Definition shutdown_events (s : logger) : trace :=
  match g_output s with
  | Some f => if Nat.eqb f stderr then [] else [Ev_fclose f]
  | None => []
  end.

(** What a call leaves in [g_lock]: 0 after a return; an abort happens only
    on the failed assertion, which precedes the lock; the spin loop of an
    unlocked logger does not run out. *)
Definition lock_released (nd : bool) (s : logger) (o : outcome unit) : Prop :=
  match o with
  | Returned _ s' _ => g_lock s' = 0
  | Aborted s' _ => nd = false /\ g_output s = None /\ g_lock s' = 0
  | Spins _ _ => False
  end.

(** Threads inside the critical section of [zlog_write], threads that have
    returned, and the job a thread carries. *)
Definition in_cs (th : thread) : bool :=
  match th_pc th with
  | PCheck | PWrite _ _ | PFlush | PUnlock => true
  | _ => false
  end.

Definition done_th (th : thread) : bool :=
  match th_pc th with
  | PDone => true
  | _ => false
  end.

Definition holders (ths : list thread) : nat :=
  List.length (filter in_cs ths).

Definition job_of (th : thread) : emission * string * va_list :=
  (th_op th, th_fmt th, th_args th).

Definition message (render : string -> va_list -> string)
    (j : emission * string * va_list) : list ascii :=
  list_ascii_of_string (render (snd (fst j)) (snd j)).

Definition all_done (c : system) : bool := forallb done_th (threads c).

(** Three threads, and a schedule that lets the third one win the lock
    while the other two spin. *)
Definition demo_jobs : list (emission * string * va_list) :=
  [(Warn, "A%d;"%string, [VInt 1]);
   (Err, "bb;"%string, []);
   (Fatal, "%s;"%string, [VStr "cc"])].

Definition demo_logger : logger :=
  {| g_lock := 0; g_output := Some 7%nat; g_level := ZLOG_WARN |}.

Definition demo_sched : list nat :=
  [2; 2; 2; 0; 0; 0; 1; 1; 1; 2; 0; 2; 1; 2; 0; 1; 2; 2; 0; 2; 1; 2; 0; 0;
   1; 0; 1; 0; 0; 1; 0; 0; 0; 1; 1; 1; 1; 1; 1; 1; 1; 1]%nat.

Section Invariant.

Variable render : string -> va_list -> string.
(** The sink and the threshold, which no emission changes. *)
Variable f : FILE.
Variable lvl : Z.

(** The part of its text a thread has handed to the stream. *)
Definition partial (th : thread) : list ascii :=
  match th_pc th with
  | PWrite _ n => firstn n (text_of render th)
  | PFlush | PUnlock => text_of render th
  | _ => []
  end.

Definition thread_ok (th : thread) : Prop :=
  lvl <= severity (th_op th) /\
  match th_pc th with
  | PAbort => False
  | PWrite g _ => g = f
  | _ => True
  end.

Record sys_inv (c : system) : Prop := mkInv {
  inv_output : g_output (shared c) = Some f;
  inv_level : g_level (shared c) = lvl;
  inv_threads : Forall thread_ok (threads c);
  inv_lock : g_lock (shared c) = Z.of_nat (holders (threads c));
  inv_mutex : (holders (threads c) <= 1)%nat;
  inv_wire :
    exists D,
      Permutation D (map (text_of render) (filter done_th (threads c))) /\
      wire c
      = map (pair f)
          (List.concat D ++ List.concat (map partial (threads c)))
}.

End Invariant.

(** ** Notions used by the further properties *)

(** The stream [zlog_init] stores for its argument [out]. *)
Definition sink_of (out : option FILE) : FILE :=
  match out with
  | Some f => f
  | None => stderr
  end.

(** What one emission hands to its stream. *)
Definition write_events (render : string -> va_list -> string)
    (f : FILE) (fmt : string) (args : va_list) : trace :=
  [Ev_vfprintf f (render fmt args); Ev_fflush f].

(** The calls of a trace that reach stream [f]; the diagnostic of a failed
    [assert] reaches the standard error stream. *)
Definition on_stream (f : FILE) (e : event) : bool :=
  match e with
  | Ev_vfprintf g _ | Ev_fflush g | Ev_fclose g => Nat.eqb g f
  | Ev_assert_fail => Nat.eqb stderr f
  end.

Definition stream_calls (f : FILE) (t : trace) : trace :=
  filter (on_stream f) t.

(** How a sequence of calls may end in a program with one thread. *)
Definition sequential_outcome (nd : bool) (o : outcome unit) : Prop :=
  match o with
  | Returned _ s _ => g_lock s = 0
  | Aborted s _ => nd = false /\ g_output s = None /\ g_lock s = 0
  | Spins _ _ => False
  end.

(** The streams a history hands to [zlog_init]. *)
Definition given (history : list call) (f : FILE) : Prop :=
  exists level, In (Call_init (Some f) level) history.

(** A bound on the steps a thread still has to take before it returns,
    the retries of the compare-and-swap left out. *)
Definition rank (render : string -> va_list -> string) (th : thread) : nat :=
  let len := List.length (text_of render th) in
  match th_pc th with
  | PFast => len + 8
  | PAssert => len + 7
  | PYield => len + 6
  | PCas => len + 5
  | PCheck => len + 4
  | PWrite _ n => (len - n) + 3
  | PFlush => 2
  | PUnlock => 1
  | PDone => 0
  | PAbort => 0
  end%nat.

Definition remaining (render : string -> va_list -> string)
    (ths : list thread) : nat :=
  list_sum (map (rank render) ths).

(** Two threads below the threshold of a logger whose lock is held. *)
Definition quiet_jobs : list (emission * string * va_list) :=
  [(Debug, "d"%string, []); (Trace, "t"%string, [])].

Definition held_logger : logger :=
  {| g_lock := 1; g_output := Some 7%nat; g_level := ZLOG_INFO |}.

(** A trace in which every [vfprintf] is followed at once by the [fflush]
    of the same stream, and no other [fflush] occurs; [pending] is the stream
    written and not yet flushed.  The diagnostic of [assert] is none of the
    logger's writes. *)
Fixpoint flushed_from (pending : option FILE) (t : trace) : bool :=
  match t, pending with
  | [], None => true
  | Ev_vfprintf f _ :: t', None => flushed_from (Some f) t'
  | Ev_fflush g :: t', Some f => Nat.eqb f g && flushed_from None t'
  | Ev_fclose _ :: t', None => flushed_from None t'
  | Ev_assert_fail :: t', None => flushed_from None t'
  | _, _ => false
  end.

Definition flushed (t : trace) : bool := flushed_from None t.

(** * Properties *)

Example printf_text_value :
  printf_text "value=%d" [VInt 42] = "value=42"%string.
Proof. reflexivity. Qed.

Example printf_text_hello :
  printf_text "Hello, %s" [VStr "world"] = "Hello, world"%string.
Proof. reflexivity. Qed.

(** The scenarios of the specification, run on the model. *)
Example scenario_warn_threshold :
  (zlog_init 1 (Some 7%nat) ZLOG_WARN ;;
   zlog_info true 1 printf_text "ignored" [] ;;
   zlog_warn true 1 printf_text "value=%d" [VInt 42]) logger0 []
  = Returned tt
      {| g_lock := 0; g_output := Some 7%nat; g_level := ZLOG_WARN |}
      [Ev_vfprintf 7%nat "value=42"; Ev_fflush 7%nat].
Proof. reflexivity. Qed.

Example scenario_trace_threshold :
  (zlog_init 1 (Some 7%nat) ZLOG_TRACE ;;
   zlog_fatal false 1 printf_text "boom" []) logger0 []
  = Returned tt
      {| g_lock := 0; g_output := Some 7%nat; g_level := ZLOG_TRACE |}
      [Ev_vfprintf 7%nat "boom"; Ev_fflush 7%nat].
Proof. reflexivity. Qed.

Example usage_of_header :
  (zlog_init 1 (Some stdout) ZLOG_INFO ;;
   zlog_info false 1 printf_text "Hello, %s" [VStr "world"] ;;
   zlog_shutdown 1) logger0 []
  = Returned tt logger0
      [Ev_vfprintf stdout "Hello, world"; Ev_fflush stdout; Ev_fclose stdout].
Proof. reflexivity. Qed.

(** ** The spin loop *)

Lemma spinlock_lock_free (fuel : nat) :
  spinlock_lock (S fuel) 0 = Some 1.
Proof. reflexivity. Qed.

Lemma spinlock_lock_held (fuel : nat) (lock : Z) :
  lock <> 0 -> spinlock_lock fuel lock = None.
Proof.
  intros Hheld. induction fuel as [|fuel IH]; simpl; [reflexivity|].
  unfold sync_bool_compare_and_swap.
  destruct (Z.eqb_spec lock 0) as [E|_]; [contradiction|exact IH].
Qed.

Lemma spinlock_lock_acquires (fuel : nat) (lock l : Z) :
  spinlock_lock fuel lock = Some l -> lock = 0 /\ l = 1.
Proof.
  destruct (Z.eq_dec lock 0) as [->|Hheld].
  - destruct fuel; simpl; [discriminate|]. intros [= <-]. auto.
  - rewrite (spinlock_lock_held fuel lock Hheld). discriminate.
Qed.

Lemma lock_g_lock_free (fuel : nat) (s : logger) (t : trace) :
  g_lock s = 0 -> lock_g_lock (S fuel) s t = Returned tt (with_lock 1 s) t.
Proof. intros H. unfold lock_g_lock. rewrite H. reflexivity. Qed.

Lemma with_lock_same (s : logger) : with_lock (g_lock s) s = s.
Proof. destruct s; reflexivity. Qed.

Lemma unlocked_again (s : logger) :
  g_lock s = 0 -> with_lock 0 s = s.
Proof. intros <-. apply with_lock_same. Qed.

(** Unfolding of the monad and of the logger's operations. *)
Ltac logger_unfold :=
  unfold zlog_emit, zlog_trace, zlog_debug, zlog_info, zlog_warn, zlog_err,
    zlog_fatal, zlog_write, zlog_init, zlog_shutdown, zlog_set_level,
    zlog_get_level, get_output, assert, vfprintf, fflush, fclose,
    unlock_g_lock, bind, ret, read, store_output, store_level, emit_event
    in *.

Ltac take_lock H :=
  logger_unfold; rewrite (lock_g_lock_free _ _ _ H); cbn.

(** ** validate_level *)

Lemma validate_level_valid (level : Z) :
  valid_level level -> validate_level level = level.
Proof.
  unfold valid_level, validate_level, ZLOG_TRACE, ZLOG_FATAL. intros H.
  destruct (Z.geb_spec level 0), (Z.leb_spec level 5); simpl; lia.
Qed.

Lemma validate_level_invalid (level : Z) :
  level < ZLOG_TRACE \/ ZLOG_FATAL < level -> validate_level level = ZLOG_INFO.
Proof.
  unfold validate_level, ZLOG_TRACE, ZLOG_FATAL. intros H.
  destruct (Z.geb_spec level 0), (Z.leb_spec level 5); simpl;
    try reflexivity; lia.
Qed.

Lemma validate_level_range (level : Z) : valid_level (validate_level level).
Proof.
  unfold valid_level, validate_level, ZLOG_TRACE, ZLOG_FATAL, ZLOG_INFO.
  destruct (Z.geb_spec level 0), (Z.leb_spec level 5); simpl; lia.
Qed.

Lemma severity_valid (e : emission) : valid_level (severity e).
Proof. destruct e; cbv; intuition discriminate. Qed.

(** ** Configuration calls on an unlocked logger *)

Lemma zlog_init_unlocked (fuel : nat) out level s t :
  g_lock s = 0 ->
  zlog_init (S fuel) out level s t
  = Returned tt
      {| g_lock := 0;
         g_output := Some (match out with Some f => f | None => stderr end);
         g_level := validate_level level |} t.
Proof. intros H. take_lock H. reflexivity. Qed.

Lemma zlog_set_level_unlocked (fuel : nat) level s t :
  g_lock s = 0 ->
  zlog_set_level (S fuel) level s t
  = Returned tt (with_level (validate_level level) s) t.
Proof.
  intros H. take_lock H. unfold with_level, with_lock, spinlock_unlock; cbn.
  rewrite H. reflexivity.
Qed.

Lemma zlog_shutdown_unlocked (fuel : nat) s t :
  g_lock s = 0 ->
  zlog_shutdown (S fuel) s t
  = Returned tt (with_output None s) (t ++ shutdown_events s).
Proof.
  intros H. take_lock H. unfold shutdown_events.
  destruct (g_output s) as [f|]; cbn.
  - destruct (Nat.eqb f stderr); cbn;
      unfold with_output, with_lock, spinlock_unlock; cbn;
      rewrite H, ?app_nil_r; reflexivity.
  - unfold with_output, with_lock, spinlock_unlock; cbn.
    rewrite H, app_nil_r. reflexivity.
Qed.

(** ** zlog_write and the emission operations on an unlocked logger *)

Lemma zlog_write_sink (nd : bool) (fuel : nat) render level fmt args s t f :
  g_lock s = 0 -> g_output s = Some f ->
  zlog_write nd (S fuel) render level fmt args s t
  = Returned tt s
      (if level >=? g_level s
       then t ++ [Ev_vfprintf f (render fmt args); Ev_fflush f]
       else t).
Proof.
  intros H Hout. destruct s as [l o v]; cbn in *; subst l o.
  logger_unfold. cbn. rewrite orb_true_r. cbn.
  destruct (level >=? v); cbn; rewrite <- ?app_assoc; reflexivity.
Qed.

Lemma zlog_write_null_ndebug (fuel : nat) render level fmt args s t :
  g_lock s = 0 -> g_output s = None ->
  zlog_write true (S fuel) render level fmt args s t = Returned tt s t.
Proof.
  intros H Hout. destruct s as [l o v]; cbn in *; subst l o.
  reflexivity.
Qed.

Lemma zlog_write_null_assert (fuel : nat) render level fmt args s t :
  g_output s = None ->
  zlog_write false fuel render level fmt args s t
  = Aborted s (t ++ [Ev_assert_fail]).
Proof. intros Hout. logger_unfold. rewrite Hout. reflexivity. Qed.

(** Every emission operation is its fast-path test followed by
    [zlog_write] at its own level. *)
Lemma zlog_emit_unfold (nd : bool) (fuel : nat) render e fmt args s t :
  zlog_emit nd fuel render e fmt args s t
  = if severity e <? g_level s then Returned tt s t
    else zlog_write nd fuel render (severity e) fmt args s t.
Proof.
  destruct e; unfold zlog_emit, zlog_trace, zlog_debug, zlog_info, zlog_warn,
    zlog_err, zlog_fatal, bind, read, ret, severity;
    match goal with |- context [?a <? ?b] => destruct (a <? b) end;
    reflexivity.
Qed.

(** ** Call histories *)

(** All the branches of a call: the outcome of the spin loop, the sink, the
    two tests of the level. *)
Ltac call_branches :=
  logger_unfold; unfold lock_g_lock;
  repeat match goal with
         | |- context [match spinlock_lock ?n ?l with _ => _ end] =>
             destruct (spinlock_lock n l); cbn
         | |- context [match g_output ?s with _ => _ end] =>
             destruct (g_output s); cbn
         | |- context [if ?b then _ else _] => destruct b; cbn
         end;
  auto.

Lemma do_call_level_ok nd fuel render c s t :
  level_ok s -> level_ok (state_of (do_call nd fuel render c s t)).
Proof.
  unfold level_ok. intros Hs.
  assert (Hv := validate_level_range).
  destruct c as [out level| | |level|e fmt args]; cbn [do_call].
  - call_branches.
  - call_branches.
  - exact Hs.
  - call_branches.
  - rewrite zlog_emit_unfold. call_branches.
Qed.

Lemma do_call_unlocked nd fuel render c s t :
  g_lock s = 0 -> g_lock (state_of (do_call nd fuel render c s t)) = 0.
Proof.
  intros Hs.
  destruct c as [out level| | |level|e fmt args]; cbn [do_call].
  - call_branches.
  - call_branches.
  - exact Hs.
  - call_branches.
  - rewrite zlog_emit_unfold. call_branches.
Qed.

Lemma run_cons nd fuel render c cs s t :
  run nd fuel render (c :: cs) s t
  = match do_call nd fuel render c s t with
    | Returned _ s' t' => run nd fuel render cs s' t'
    | Aborted s' t' => Aborted s' t'
    | Spins s' t' => Spins s' t'
    end.
Proof. reflexivity. Qed.

Lemma run_invariant (P : logger -> Prop) nd fuel render :
  (forall c s t, P s -> P (state_of (do_call nd fuel render c s t))) ->
  forall cs s t, P s -> P (state_of (run nd fuel render cs s t)).
Proof.
  intros Hstep cs. induction cs as [|c cs IH]; intros s t Hs.
  - exact Hs.
  - rewrite run_cons. specialize (Hstep c s t Hs).
    destruct (do_call nd fuel render c s t) as [[] s' t'|s' t'|s' t'];
      cbn in *; auto.
Qed.

Lemma run_unlocked nd fuel render cs s t :
  g_lock s = 0 -> g_lock (state_of (run nd fuel render cs s t)) = 0.
Proof.
  apply (run_invariant (fun s => g_lock s = 0)).
  intros c s' t'. apply do_call_unlocked.
Qed.

(** ** Traces *)

Lemma writes_to_app f t1 t2 :
  writes_to f (t1 ++ t2) = writes_to f t1 ++ writes_to f t2.
Proof.
  induction t1 as [|[g text|g|g|] t1 IH]; cbn; auto.
  destruct (Nat.eqb g f); cbn; congruence.
Qed.

Lemma closes_app t1 t2 : closes (t1 ++ t2) = closes t1 ++ closes t2.
Proof.
  induction t1 as [|[g text|g|g|] t1 IH]; cbn; congruence.
Qed.

Lemma append_assoc (a b c : string) :
  ((a ++ b) ++ c)%string = (a ++ (b ++ c))%string.
Proof. induction a as [|x a IH]; cbn; congruence. Qed.

Lemma append_empty (a : string) : (a ++ EmptyString)%string = a.
Proof. induction a as [|x a IH]; cbn; congruence. Qed.

Lemma received_app f t1 t2 :
  received f (t1 ++ t2) = (received f t1 ++ received f t2)%string.
Proof.
  unfold received. rewrite writes_to_app.
  induction (writes_to f t1) as [|a l IH]; cbn; [reflexivity|].
  rewrite IH, append_assoc. reflexivity.
Qed.

(** * The claims of the specification *)

(** ** C1: the state after zlog_shutdown *)

(** C1, as stated, fails: after [zlog_init(f, ZLOG_INFO)],
    [zlog_set_level(ZLOG_ERR)] and [zlog_shutdown()], [zlog_get_level()]
    returns [ZLOG_ERR], not [ZLOG_INFO]; and a following [zlog_fatal] does
    not use the default error stream as its sink: with [NDEBUG] it returns
    without any call on a stream, and with assertions it stops at the failed
    [assert], before any [vfprintf]. *)
Lemma shutdown_default_state_counterexample :
  let history :=
    zlog_init 1 (Some 7%nat) ZLOG_INFO ;; zlog_set_level 1 ZLOG_ERR ;;
    zlog_shutdown 1 in
  let s := {| g_lock := 0; g_output := None; g_level := ZLOG_ERR |} in
  history logger0 [] = Returned tt s [Ev_fclose 7%nat] /\
  zlog_get_level s [Ev_fclose 7%nat] = Returned ZLOG_ERR s [Ev_fclose 7%nat] /\
  ZLOG_ERR <> ZLOG_INFO /\
  zlog_fatal false 1 printf_text "boom" [] s [Ev_fclose 7%nat]
    = Aborted s [Ev_fclose 7%nat; Ev_assert_fail] /\
  zlog_fatal true 1 printf_text "boom" [] s [Ev_fclose 7%nat]
    = Returned tt s [Ev_fclose 7%nat].
Proof. cbv. repeat split; discriminate. Qed.

(** C1, amended: after any history of calls that returned, [zlog_shutdown]
    returns with [g_output] cleared to [NULL], which [get_output] resolves to
    the default error stream, and [zlog_get_level] then returns the threshold
    that was stored before the shutdown; so it returns Info when that
    threshold was Info.  An emission in that state does not take the default
    error stream as its sink: with [NDEBUG] it returns and calls no stream;
    with assertions it returns and calls no stream when its severity is
    below the threshold, and otherwise it fails the [assert], whose
    diagnostic is all that is written, and aborts. *)
Theorem shutdown_clears_sink_keeps_level
    (nd : bool) (fuel fuel' fuel'' : nat)
    (render : string -> va_list -> string)
    (history : list call) (s : logger) (t : trace)
    (e : emission) (fmt : string) (args : va_list) :
  run nd fuel render history logger0 [] = Returned tt s t ->
  let s' := with_output None s in
  let t' := t ++ shutdown_events s in
  zlog_shutdown (S fuel') s t = Returned tt s' t' /\
  g_output s' = None /\
  get_output s' t' = Returned stderr s' t' /\
  zlog_get_level s' t' = Returned (g_level s) s' t' /\
  (g_level s = ZLOG_INFO -> zlog_get_level s' t' = Returned ZLOG_INFO s' t') /\
  zlog_emit true (S fuel'') render e fmt args s' t' = Returned tt s' t' /\
  (severity e < g_level s ->
     zlog_emit false (S fuel'') render e fmt args s' t' = Returned tt s' t') /\
  (g_level s <= severity e ->
     zlog_emit false (S fuel'') render e fmt args s' t'
     = Aborted s' (t' ++ [Ev_assert_fail])).
Proof.
  intros Hrun s' t'.
  assert (Hfree : g_lock s = 0).
  { generalize (run_unlocked nd fuel render history logger0 [] eq_refl).
    rewrite Hrun. auto. }
  split; [exact (zlog_shutdown_unlocked fuel' s t Hfree)|].
  split; [reflexivity|]. split; [reflexivity|]. split; [reflexivity|].
  split; [intros <-; reflexivity|].
  rewrite !zlog_emit_unfold.
  rewrite (zlog_write_null_ndebug fuel'' render _ fmt args s' t' Hfree eq_refl).
  rewrite (zlog_write_null_assert (S fuel'') render _ fmt args s' t' eq_refl).
  change (g_level s') with (g_level s).
  split; [destruct (severity e <? g_level s); reflexivity|]. split.
  - intros Hcmp. apply Z.ltb_lt in Hcmp. rewrite Hcmp. reflexivity.
  - intros Hcmp.
    destruct (Z.ltb_spec (severity e) (g_level s)); [lia|reflexivity].
Qed.

Lemma shutdown_clears_sink_keeps_level_witness :
  let history := [Call_init (Some 7%nat) ZLOG_TRACE; Call_set_level ZLOG_WARN;
                  Call_emit Err "disk %d" [VInt 3]] in
  let s := {| g_lock := 0; g_output := Some 7%nat; g_level := ZLOG_WARN |} in
  let t := [Ev_vfprintf 7%nat "disk 3"; Ev_fflush 7%nat] in
  run false 1 printf_text history logger0 [] = Returned tt s t /\
  zlog_get_level (with_output None s) (t ++ [Ev_fclose 7%nat])
  = Returned ZLOG_WARN (with_output None s) (t ++ [Ev_fclose 7%nat]) /\
  zlog_emit true 1 printf_text Fatal "boom" [] (with_output None s)
    (t ++ [Ev_fclose 7%nat])
  = Returned tt (with_output None s) (t ++ [Ev_fclose 7%nat]).
Proof.
  split; [reflexivity|].
  destruct (shutdown_clears_sink_keeps_level false 1 0 0 printf_text
              [Call_init (Some 7%nat) ZLOG_TRACE; Call_set_level ZLOG_WARN;
               Call_emit Err "disk %d" [VInt 3]]
              {| g_lock := 0; g_output := Some 7%nat; g_level := ZLOG_WARN |}
              [Ev_vfprintf 7%nat "disk 3"; Ev_fflush 7%nat]
              Fatal "boom" [] eq_refl)
    as (_ & _ & _ & Hlevel & _ & Hemit & _).
  split; [exact Hlevel|exact Hemit].
Defined.

(** ** C2: filtering and the single write *)

(** C2: on an initialised logger (a sink [f] is set) with threshold
    [g_level s], an emission of severity below the threshold returns with the
    trace unchanged, so the sink receives nothing; an emission at or above it
    performs exactly one [vfprintf], on the sink, whose text is the rendering
    of the format with the arguments and nothing more, followed by the flush;
    no other stream is written and none is closed. *)
Theorem emission_filter_and_write
    (nd : bool) (fuel : nat) (render : string -> va_list -> string)
    (e : emission) (fmt : string) (args : va_list)
    (s : logger) (t : trace) (f : FILE) :
  g_lock s = 0 ->
  g_output s = Some f ->
  (severity e < g_level s ->
     zlog_emit nd (S fuel) render e fmt args s t = Returned tt s t) /\
  (g_level s <= severity e ->
     let t' := t ++ [Ev_vfprintf f (render fmt args); Ev_fflush f] in
     zlog_emit nd (S fuel) render e fmt args s t = Returned tt s t' /\
     writes_to f t' = writes_to f t ++ [render fmt args] /\
     received f t' = (received f t ++ render fmt args)%string /\
     (forall g, g <> f -> writes_to g t' = writes_to g t) /\
     closes t' = closes t).
Proof.
  intros Hfree Hout. rewrite zlog_emit_unfold.
  rewrite (zlog_write_sink nd fuel render _ fmt args s t f Hfree Hout).
  split; intros Hcmp.
  - apply Z.ltb_lt in Hcmp. rewrite Hcmp. reflexivity.
  - destruct (Z.ltb_spec (severity e) (g_level s)) as [Hlt|_]; [lia|].
    destruct (Z.geb_spec (severity e) (g_level s)) as [_|Hlt]; [|lia].
    cbv zeta. split; [reflexivity|].
    rewrite received_app, writes_to_app, closes_app.
    unfold received. cbn. rewrite Nat.eqb_refl. cbn.
    rewrite append_empty, app_nil_r. repeat split.
    intros g Hg. rewrite writes_to_app. cbn.
    destruct (Nat.eqb_spec f g) as [E|_]; [congruence|].
    apply app_nil_r.
Qed.

Lemma emission_filter_and_write_witness :
  let s := {| g_lock := 0; g_output := Some 7%nat; g_level := ZLOG_WARN |} in
  zlog_emit false 1 printf_text Info "ignored" [] s [] = Returned tt s [] /\
  zlog_emit false 1 printf_text Warn "value=%d" [VInt 42] s []
  = Returned tt s [Ev_vfprintf 7%nat "value=42"; Ev_fflush 7%nat].
Proof.
  pose (s := {| g_lock := 0; g_output := Some 7%nat; g_level := ZLOG_WARN |}).
  split.
  - apply (proj1 (emission_filter_and_write false 0 printf_text Info
                    "ignored" [] s [] 7%nat eq_refl eq_refl)).
    reflexivity.
  - apply (proj2 (emission_filter_and_write false 0 printf_text Warn
                    "value=%d" [VInt 42] s [] 7%nat eq_refl eq_refl)).
    cbv. discriminate.
Defined.

(** ** C3: emission before the first zlog_init *)

(** C3, as stated, fails: in the initial state and with assertions enabled,
    [zlog_trace] and [zlog_debug] return silently, without aborting. *)
Lemma emission_before_init_counterexample :
  zlog_trace false 1 printf_text "x" [] logger0 [] = Returned tt logger0 [] /\
  zlog_debug false 1 printf_text "x" [] logger0 [] = Returned tt logger0 [].
Proof. split; reflexivity. Qed.

(** C3, amended: with assertions enabled and no sink set (before the first
    [zlog_init]), an emission whose severity is at or above the current
    threshold fails the [assert] of [zlog_write]: the diagnostic of [assert]
    goes to the standard error stream, the process aborts, and the message
    itself is handed to no stream; an emission below the threshold returns
    on the fast path and calls no stream at all.  On the initial state,
    whose threshold is Info, [zlog_info], [zlog_warn], [zlog_err] and
    [zlog_fatal] abort in that way. *)
Theorem emission_before_init
    (fuel : nat) (render : string -> va_list -> string)
    (e : emission) (fmt : string) (args : va_list) (s : logger) (t : trace) :
  g_output s = None ->
  (g_level s <= severity e ->
     zlog_emit false fuel render e fmt args s t
     = Aborted s (t ++ [Ev_assert_fail])) /\
  (severity e < g_level s ->
     zlog_emit false fuel render e fmt args s t = Returned tt s t) /\
  (s = logger0 -> ZLOG_INFO <= severity e ->
     zlog_emit false fuel render e fmt args s t
     = Aborted s (t ++ [Ev_assert_fail])).
Proof.
  intros Hout. rewrite zlog_emit_unfold.
  rewrite (zlog_write_null_assert fuel render _ fmt args s t Hout).
  repeat split.
  - intros Hcmp.
    destruct (Z.ltb_spec (severity e) (g_level s)); [lia|reflexivity].
  - intros Hcmp. apply Z.ltb_lt in Hcmp. rewrite Hcmp. reflexivity.
  - intros -> Hcmp. cbn [g_level logger0].
    destruct (Z.ltb_spec (severity e) ZLOG_INFO); [lia|reflexivity].
Qed.

Lemma emission_before_init_witness :
  g_output logger0 = None /\
  zlog_emit false 1 printf_text Warn "early %s" [VStr "call"] logger0 []
  = Aborted logger0 [Ev_assert_fail] /\
  stream_calls stderr [Ev_assert_fail] = [Ev_assert_fail].
Proof.
  split; [reflexivity|]. split; [|reflexivity].
  apply (proj1 (emission_before_init 1 printf_text Warn "early %s"
                  [VStr "call"] logger0 [] eq_refl)).
  cbv. discriminate.
Defined.

(** ** C5: invalid levels *)

(** C5: for every integer [level] below [ZLOG_TRACE] or above [ZLOG_FATAL],
    [zlog_init(out, level)] and [zlog_set_level(level)] return normally (they
    report nothing) and leave [ZLOG_INFO] as the stored threshold. *)
Theorem invalid_level_becomes_info
    (fuel : nat) (out : option FILE) (level : Z) (s : logger) (t : trace) :
  level < ZLOG_TRACE \/ ZLOG_FATAL < level ->
  g_lock s = 0 ->
  zlog_init (S fuel) out level s t
  = Returned tt
      {| g_lock := 0;
         g_output := Some (match out with Some f => f | None => stderr end);
         g_level := ZLOG_INFO |} t /\
  zlog_set_level (S fuel) level s t = Returned tt (with_level ZLOG_INFO s) t.
Proof.
  intros Hbad Hfree.
  rewrite (zlog_init_unlocked fuel out level s t Hfree).
  rewrite (zlog_set_level_unlocked fuel level s t Hfree).
  rewrite (validate_level_invalid level Hbad). auto.
Qed.

Lemma invalid_level_becomes_info_witness :
  let s := {| g_lock := 0; g_output := Some 7%nat; g_level := ZLOG_FATAL |} in
  (-1 < ZLOG_TRACE \/ ZLOG_FATAL < -1) /\
  zlog_set_level 1 (-1) s [] = Returned tt (with_level ZLOG_INFO s) [].
Proof.
  pose (s := {| g_lock := 0; g_output := Some 7%nat; g_level := ZLOG_FATAL |}).
  assert (Hbad : -1 < ZLOG_TRACE \/ ZLOG_FATAL < -1) by (left; reflexivity).
  split; [exact Hbad|].
  exact (proj2 (invalid_level_becomes_info 0 None (-1) s [] Hbad eq_refl)).
Defined.

(** ** C6: set_level followed by get_level *)

(** C6: for every valid severity [L], [zlog_set_level(L)] followed by
    [zlog_get_level()] returns [L], whatever sink and threshold the logger
    held before. *)
Theorem set_then_get_level
    (fuel : nat) (L : Z) (s : logger) (t : trace) :
  valid_level L ->
  g_lock s = 0 ->
  (zlog_set_level (S fuel) L ;; zlog_get_level) s t
  = Returned L (with_level L s) t.
Proof.
  intros HL Hfree. unfold bind at 1.
  rewrite (zlog_set_level_unlocked fuel L s t Hfree).
  rewrite (validate_level_valid L HL). reflexivity.
Qed.

Lemma set_then_get_level_witness :
  valid_level ZLOG_DEBUG /\
  (zlog_set_level 1 ZLOG_DEBUG ;; zlog_get_level) logger0 []
  = Returned ZLOG_DEBUG (with_level ZLOG_DEBUG logger0) [].
Proof.
  assert (HL : valid_level ZLOG_DEBUG) by (split; discriminate).
  split; [exact HL|].
  exact (set_then_get_level 0 ZLOG_DEBUG logger0 [] HL eq_refl).
Defined.

(** ** C7: zlog_shutdown and the sink *)

(** C7: [zlog_shutdown] calls [fclose] on a stream [f] exactly when [f] is
    the sink that is set and [f] is not the default error stream, and leaves
    [g_output] at [NULL]; a second [zlog_shutdown] closes nothing and returns
    the same state and trace. *)
Theorem shutdown_closes_once (fuel fuel' : nat) (s : logger) (t : trace) :
  g_lock s = 0 ->
  let s1 := with_output None s in
  let t1 := t ++ shutdown_events s in
  zlog_shutdown (S fuel) s t = Returned tt s1 t1 /\
  (forall f, In f (closes (shutdown_events s))
             <-> g_output s = Some f /\ f <> stderr) /\
  closes t1 = closes t ++ closes (shutdown_events s) /\
  zlog_shutdown (S fuel') s1 t1 = Returned tt s1 t1.
Proof.
  intros Hfree s1 t1.
  split; [exact (zlog_shutdown_unlocked fuel s t Hfree)|].
  split; [|split; [apply closes_app|]].
  - intros f. unfold shutdown_events.
    destruct (g_output s) as [g|]; cbn.
    + destruct (Nat.eqb_spec g stderr) as [E|N]; cbn.
      * split; [intros []|]. intros [[= ->] Hne]. contradiction.
      * split.
        -- intros [->|[]]. auto.
        -- intros [[= ->] _]. left. reflexivity.
    + split; [intros []|]. intros [Hout _]. discriminate.
  - rewrite (zlog_shutdown_unlocked fuel' s1 t1 Hfree).
    unfold shutdown_events. cbn. rewrite app_nil_r. reflexivity.
Qed.

Lemma shutdown_closes_once_witness :
  let s := {| g_lock := 0; g_output := Some 7%nat; g_level := ZLOG_DEBUG |} in
  zlog_shutdown 1 s [] = Returned tt (with_output None s) [Ev_fclose 7%nat] /\
  zlog_shutdown 1 (with_output None s) [Ev_fclose 7%nat]
  = Returned tt (with_output None s) [Ev_fclose 7%nat].
Proof.
  pose (s := {| g_lock := 0; g_output := Some 7%nat; g_level := ZLOG_DEBUG |}).
  destruct (shutdown_closes_once 0 0 s [] eq_refl) as (H1 & _ & _ & H2).
  split; [exact H1|exact H2].
Defined.

(** ** C8: the threshold is a Severity *)

(** C8: the stored threshold lies between [ZLOG_TRACE] and [ZLOG_FATAL] in
    the initial state, every public operation keeps it there for every
    argument and whatever its outcome, and so does every history of calls
    from the initial state. *)
Theorem threshold_always_valid
    (nd : bool) (fuel : nat) (render : string -> va_list -> string) :
  level_ok logger0 /\
  (forall c s t, level_ok s -> level_ok (state_of (do_call nd fuel render c s t))) /\
  (forall cs t, level_ok (state_of (run nd fuel render cs logger0 t))).
Proof.
  assert (H0 : level_ok logger0) by (split; discriminate).
  split; [exact H0|]. split.
  - intros c s t. apply do_call_level_ok.
  - intros cs t. apply (run_invariant level_ok); [|exact H0].
    intros c s t'. apply do_call_level_ok.
Qed.

Lemma threshold_always_valid_witness :
  let s := {| g_lock := 0; g_output := None; g_level := ZLOG_FATAL |} in
  level_ok s /\
  level_ok (state_of (do_call false 1 printf_text (Call_set_level 99) s [])) /\
  g_level (state_of (do_call false 1 printf_text (Call_set_level 99) s []))
  = ZLOG_INFO.
Proof.
  pose (s := {| g_lock := 0; g_output := None; g_level := ZLOG_FATAL |}).
  assert (Hs : level_ok s) by (split; discriminate).
  split; [exact Hs|]. split; [|reflexivity].
  exact (proj1 (proj2 (threshold_always_valid false 1 printf_text))
           (Call_set_level 99) s [] Hs).
Defined.

(** ** C9: the lock after an emission *)

(** C9: started on an unlocked logger, [zlog_write] at any level, and each
    of the six emission operations, ends with [g_lock] at 0 in every branch;
    when the check made under the lock fails, [zlog_write] returns with the
    state and the trace as they were. *)
Theorem emission_releases_lock
    (nd : bool) (fuel : nat) (render : string -> va_list -> string)
    (level : Z) (e : emission) (fmt : string) (args : va_list)
    (s : logger) (t : trace) :
  g_lock s = 0 ->
  lock_released nd s (zlog_write nd (S fuel) render level fmt args s t) /\
  lock_released nd s (zlog_emit nd (S fuel) render e fmt args s t) /\
  (nd || negb (is_null (g_output s)) = true ->
   (level >=? g_level s) && negb (is_null (g_output s)) = false ->
   zlog_write nd (S fuel) render level fmt args s t = Returned tt s t).
Proof.
  intros Hfree.
  assert (Hw : forall lv,
             lock_released nd s
               (zlog_write nd (S fuel) render lv fmt args s t)).
  { intros lv. destruct (g_output s) as [f|] eqn:Hout.
    - rewrite (zlog_write_sink nd fuel render lv fmt args s t f Hfree Hout).
      exact Hfree.
    - destruct nd.
      + rewrite (zlog_write_null_ndebug fuel render lv fmt args s t Hfree Hout).
        exact Hfree.
      + rewrite (zlog_write_null_assert (S fuel) render lv fmt args s t Hout).
        cbn. auto. }
  split; [apply Hw|]. split.
  - rewrite zlog_emit_unfold.
    destruct (severity e <? g_level s); [exact Hfree|apply Hw].
  - intros Hassert Hcheck. destruct (g_output s) as [f|] eqn:Hout.
    + rewrite (zlog_write_sink nd fuel render level fmt args s t f Hfree Hout).
      cbn in Hcheck. rewrite andb_true_r in Hcheck. rewrite Hcheck.
      reflexivity.
    + cbn in Hassert. rewrite orb_false_r in Hassert. subst nd.
      exact (zlog_write_null_ndebug fuel render level fmt args s t Hfree Hout).
Qed.

Lemma emission_releases_lock_witness :
  let s := {| g_lock := 0; g_output := Some 7%nat; g_level := ZLOG_ERR |} in
  zlog_write false 1 printf_text ZLOG_DEBUG "late %d" [VInt 1] s []
  = Returned tt s [] /\
  lock_released false s (zlog_emit false 1 printf_text Fatal "boom" [] s []).
Proof.
  pose (s := {| g_lock := 0; g_output := Some 7%nat; g_level := ZLOG_ERR |}).
  destruct (emission_releases_lock false 0 printf_text ZLOG_DEBUG Fatal
              "late %d" [VInt 1] s [] eq_refl) as (_ & _ & Hskip).
  destruct (emission_releases_lock false 0 printf_text ZLOG_DEBUG Fatal
              "boom" [] s [] eq_refl) as (_ & Hemit & _).
  split; [exact (Hskip eq_refl eq_refl)|exact Hemit].
Defined.

(** ** C10: emission without a sink *)

(** C10, as stated, fails in a build with assertions: after a shutdown,
    [zlog_fatal] fails the [assert] of [zlog_write], so the diagnostic of
    [assert] reaches the standard error stream, and the process aborts. *)
Lemma emission_without_sink_counterexample :
  let s := {| g_lock := 0; g_output := None; g_level := ZLOG_INFO |} in
  (zlog_init 1 (Some 7%nat) ZLOG_INFO ;; zlog_shutdown 1) logger0 []
  = Returned tt s [Ev_fclose 7%nat] /\
  zlog_fatal false 1 printf_text "boom" [] s [Ev_fclose 7%nat]
  = Aborted s [Ev_fclose 7%nat; Ev_assert_fail] /\
  stream_calls stderr [Ev_fclose 7%nat] = [] /\
  stream_calls stderr [Ev_fclose 7%nat; Ev_assert_fail] = [Ev_assert_fail].
Proof. repeat split. Qed.

Lemma stream_calls_app f t1 t2 :
  stream_calls f (t1 ++ t2) = stream_calls f t1 ++ stream_calls f t2.
Proof. apply filter_app. Qed.

(** C10, amended: while [g_output] is [NULL], as [zlog_shutdown] leaves it,
    no emission hands its message to a stream, the default error stream
    included.  In a build with [NDEBUG] it returns, with the state and the
    trace as they were: no stream is written, flushed or closed.  In a build
    with assertions, an emission below the threshold returns in the same
    way, and one at or above it fails the [assert]: the diagnostic of
    [assert] goes to the standard error stream and the process aborts.  In
    every build no stream other than the standard error stream is
    touched. *)
Theorem emission_without_sink
    (nd : bool) (fuel : nat) (render : string -> va_list -> string)
    (e : emission) (fmt : string) (args : va_list) (s : logger) (t : trace) :
  g_lock s = 0 ->
  g_output s = None ->
  zlog_emit true (S fuel) render e fmt args s t = Returned tt s t /\
  (severity e < g_level s ->
     zlog_emit false (S fuel) render e fmt args s t = Returned tt s t) /\
  (g_level s <= severity e ->
     zlog_emit false (S fuel) render e fmt args s t
     = Aborted s (t ++ [Ev_assert_fail])) /\
  (forall g, g <> stderr ->
     stream_calls g (trace_of (zlog_emit nd (S fuel) render e fmt args s t))
     = stream_calls g t).
Proof.
  intros Hfree Hout.
  assert (Hnd : zlog_emit true (S fuel) render e fmt args s t
                = Returned tt s t).
  { rewrite zlog_emit_unfold.
    rewrite (zlog_write_null_ndebug fuel render _ fmt args s t Hfree Hout).
    destruct (severity e <? g_level s); reflexivity. }
  assert (Hassert : zlog_emit false (S fuel) render e fmt args s t
                    = if severity e <? g_level s then Returned tt s t
                      else Aborted s (t ++ [Ev_assert_fail])).
  { rewrite zlog_emit_unfold.
    rewrite (zlog_write_null_assert (S fuel) render _ fmt args s t Hout).
    reflexivity. }
  split; [exact Hnd|]. split; [|split].
  - intros Hcmp. rewrite Hassert. apply Z.ltb_lt in Hcmp. rewrite Hcmp.
    reflexivity.
  - intros Hcmp. rewrite Hassert.
    destruct (Z.ltb_spec (severity e) (g_level s)); [lia|reflexivity].
  - intros g Hg. destruct nd; [rewrite Hnd; reflexivity|].
    rewrite Hassert. destruct (severity e <? g_level s); [reflexivity|].
    cbn [trace_of]. rewrite stream_calls_app.
    unfold stream_calls at 2. cbn [filter on_stream].
    destruct (Nat.eqb_spec stderr g) as [E|_]; [congruence|].
    apply app_nil_r.
Qed.

Lemma emission_without_sink_witness :
  let after := zlog_shutdown 1
                 {| g_lock := 0; g_output := Some 7%nat;
                    g_level := ZLOG_TRACE |} [] in
  g_output (state_of after) = None /\
  zlog_emit true 1 printf_text Fatal "boom" [] (state_of after) (trace_of after)
  = Returned tt (state_of after) (trace_of after).
Proof.
  split; [reflexivity|].
  exact (proj1
    (emission_without_sink true 0 printf_text Fatal "boom" []
       {| g_lock := 0; g_output := None; g_level := ZLOG_TRACE |}
       [Ev_fclose 7%nat] eq_refl eq_refl)).
Defined.

(** ** C4: threads and the sink *)

Section Serialized.

Variable NDEBUG : bool.
Variable render : string -> va_list -> string.
Variable f : FILE.
Variable lvl : Z.

Local Abbreviation partial := (partial render).
Local Abbreviation thread_ok := (thread_ok f lvl).
Local Abbreviation sys_inv := (sys_inv render f lvl).

Lemma holders_app l1 l2 : holders (l1 ++ l2) = (holders l1 + holders l2)%nat.
Proof. unfold holders. rewrite filter_app, length_app. reflexivity. Qed.

Lemma holders_cons th l :
  holders (th :: l) = ((if in_cs th then 1 else 0) + holders l)%nat.
Proof. unfold holders. cbn. destruct (in_cs th); reflexivity. Qed.

Lemma holders_middle l1 th l2 :
  holders (l1 ++ th :: l2)
  = (holders l1 + ((if in_cs th then 1 else 0) + holders l2))%nat.
Proof. rewrite holders_app, holders_cons. reflexivity. Qed.

Lemma partial_outside th : in_cs th = false -> partial th = [].
Proof. unfold in_cs, partial. destruct (th_pc th); auto; discriminate. Qed.

Lemma partial_none l : holders l = 0%nat -> List.concat (map partial l) = [].
Proof.
  induction l as [|th l IH]; [reflexivity|].
  rewrite holders_cons. cbn. destruct (in_cs th) eqn:E; [discriminate|].
  intros H. rewrite (partial_outside th E), (IH H). reflexivity.
Qed.

Lemma partial_middle l1 th l2 :
  List.concat (map partial (l1 ++ th :: l2))
  = List.concat (map partial l1) ++ partial th ++ List.concat (map partial l2).
Proof. rewrite map_app, concat_app. reflexivity. Qed.

Lemma done_middle l1 th l2 :
  filter done_th (l1 ++ th :: l2)
  = filter done_th l1 ++ (if done_th th then [th] else [])
      ++ filter done_th l2.
Proof. rewrite filter_app. cbn. destruct (done_th th); reflexivity. Qed.

Lemma Forall_middle (P : thread -> Prop) l1 th l2 :
  Forall P (l1 ++ th :: l2) <-> Forall P l1 /\ P th /\ Forall P l2.
Proof. rewrite Forall_app, Forall_cons_iff. reflexivity. Qed.

(** A step that neither enters nor leaves the critical section, writes
    nothing and leaves the globals alone. *)
Lemma inv_local s w l1 th th' l2 :
  sys_inv (mkSystem s w (l1 ++ th :: l2)) ->
  in_cs th' = in_cs th ->
  done_th th' = done_th th ->
  partial th' = partial th ->
  (done_th th = true -> text_of render th' = text_of render th) ->
  thread_ok th' ->
  sys_inv (mkSystem s w (l1 ++ th' :: l2)).
Proof.
  intros [Ho Hl Ht Hk Hm (D & HD & Hw)] Ecs Edone Epart Etext Hok.
  cbn [shared wire threads] in *.
  constructor; cbn [shared wire threads]; auto.
  - apply Forall_middle. apply Forall_middle in Ht. tauto.
  - rewrite holders_middle, Ecs, <- holders_middle. exact Hk.
  - rewrite holders_middle, Ecs, <- holders_middle. exact Hm.
  - exists D. split.
    + rewrite done_middle, Edone. rewrite done_middle in HD.
      destruct (done_th th); [|exact HD].
      rewrite !map_app in *. cbn in *. rewrite (Etext eq_refl). exact HD.
    + rewrite partial_middle, Epart, <- partial_middle. exact Hw.
Qed.

Lemma firstn_snoc (l : list ascii) (n : nat) (c : ascii) :
  nth_error l n = Some c -> firstn (S n) l = firstn n l ++ [c].
Proof.
  revert n. induction l as [|a l IH]; intros [|n] H; cbn in *;
    try discriminate.
  - injection H as ->. reflexivity.
  - rewrite (IH n H). reflexivity.
Qed.

Lemma holder_alone l1 th l2 :
  (holders (l1 ++ th :: l2) <= 1)%nat -> in_cs th = true ->
  holders l1 = 0%nat /\ holders l2 = 0%nat.
Proof. intros H E. rewrite holders_middle, E in H. lia. Qed.

(** The compare-and-swap succeeds: the thread enters the critical section. *)
Lemma inv_acquire s w l1 th l2 :
  sys_inv (mkSystem s w (l1 ++ th :: l2)) ->
  g_lock s = 0 ->
  in_cs th = false ->
  done_th th = false ->
  sys_inv (mkSystem (with_lock 1 s) w (l1 ++ at_pc PCheck th :: l2)).
Proof.
  intros [Ho Hl Ht Hk Hm (D & HD & Hw)] Hfree Ecs Edone.
  cbn [shared wire threads] in *.
  rewrite Hfree, holders_middle, Ecs in Hk.
  assert (H1 : holders l1 = 0%nat) by lia.
  assert (H2 : holders l2 = 0%nat) by lia.
  constructor; cbn [shared wire threads with_lock g_lock g_output g_level];
    auto.
  - apply Forall_middle. apply Forall_middle in Ht.
    destruct Ht as (F1 & [Hsev _] & F2). repeat split; auto.
  - rewrite holders_middle, H1, H2. reflexivity.
  - rewrite holders_middle, H1, H2. cbn. lia.
  - exists D. split.
    + rewrite done_middle in *. rewrite Edone in HD. exact HD.
    + rewrite Hw, !partial_middle, (partial_outside th Ecs). reflexivity.
Qed.

(** One byte of the text reaches the stream. *)
Lemma inv_byte s w l1 th l2 g n c :
  sys_inv (mkSystem s w (l1 ++ th :: l2)) ->
  th_pc th = PWrite g n ->
  nth_error (text_of render th) n = Some c ->
  sys_inv (mkSystem s (w ++ [(g, c)])
             (l1 ++ at_pc (PWrite g (S n)) th :: l2)).
Proof.
  intros [Ho Hl Ht Hk Hm (D & HD & Hw)] Epc Hnth.
  cbn [shared wire threads] in *.
  assert (Ecs : in_cs th = true) by (unfold in_cs; rewrite Epc; reflexivity).
  assert (Edone : done_th th = false)
    by (unfold done_th; rewrite Epc; reflexivity).
  destruct (holder_alone l1 th l2 Hm Ecs) as [H1 H2].
  assert (Hok := Ht). apply Forall_middle in Hok.
  destruct Hok as (F1 & [Hsev Hg] & F2). rewrite Epc in Hg. subst g.
  constructor; cbn [shared wire threads]; auto.
  - apply Forall_middle. repeat split; auto.
  - rewrite holders_middle in *. rewrite Ecs in Hk. exact Hk.
  - rewrite holders_middle in *. rewrite Ecs in Hm. exact Hm.
  - exists D. split.
    + rewrite done_middle in *. rewrite Edone in HD. exact HD.
    + rewrite Hw, !partial_middle, (partial_none l1 H1), (partial_none l2 H2).
      unfold partial at 1 2. rewrite Epc. cbn [at_pc th_pc].
      change (text_of render (at_pc (PWrite f (S n)) th))
        with (text_of render th).
      rewrite (firstn_snoc _ _ _ Hnth).
      rewrite !map_app. cbn [app map]. rewrite !app_nil_r, <- !app_assoc.
      reflexivity.
Qed.

(** The lock is released: the thread's whole text is on the stream. *)
Lemma inv_release s w l1 th l2 :
  sys_inv (mkSystem s w (l1 ++ th :: l2)) ->
  th_pc th = PUnlock ->
  sys_inv (mkSystem (with_lock 0 s) w (l1 ++ at_pc PDone th :: l2)).
Proof.
  intros [Ho Hl Ht Hk Hm (D & HD & Hw)] Epc.
  cbn [shared wire threads] in *.
  assert (Ecs : in_cs th = true) by (unfold in_cs; rewrite Epc; reflexivity).
  assert (Edone : done_th th = false)
    by (unfold done_th; rewrite Epc; reflexivity).
  destruct (holder_alone l1 th l2 Hm Ecs) as [H1 H2].
  constructor; cbn [shared wire threads with_lock g_lock g_output g_level];
    auto.
  - apply Forall_middle. apply Forall_middle in Ht.
    destruct Ht as (F1 & [Hsev _] & F2). repeat split; auto.
  - rewrite holders_middle, H1, H2. reflexivity.
  - rewrite holders_middle, H1, H2. cbn. lia.
  - exists (D ++ [text_of render th]). split.
    + rewrite done_middle in *. rewrite Edone in HD. cbn [app] in *.
      rewrite map_app in *. cbn [done_th at_pc th_pc app map].
      change (text_of render (at_pc PDone th)) with (text_of render th).
      etransitivity; [apply Permutation_app_comm|]. cbn [app].
      apply Permutation_cons_app. exact HD.
    + rewrite Hw, !partial_middle, (partial_none l1 H1), (partial_none l2 H2).
      unfold partial at 1 2. rewrite Epc. cbn [at_pc th_pc].
      rewrite concat_app. cbn. rewrite !app_nil_r. reflexivity.
Qed.

Ltac same_region Epc :=
  unfold in_cs, done_th, partial, thread_ok; cbn [at_pc th_pc th_op];
  rewrite ?Epc; auto.

(** Every step of a thread keeps the invariant. *)
Lemma thread_step_inv s w l1 th l2 :
  sys_inv (mkSystem s w (l1 ++ th :: l2)) ->
  sys_inv (let '(s', out, p') := thread_step NDEBUG render th s in
           mkSystem s' (w ++ out) (l1 ++ at_pc p' th :: l2)).
Proof.
  intros Hinv.
  assert (Hok : thread_ok th).
  { apply inv_threads in Hinv. cbn in Hinv.
    apply Forall_middle in Hinv. tauto. }
  destruct Hok as [Hsev Hpc].
  assert (Ho := inv_output _ _ _ _ Hinv).
  assert (Hl := inv_level _ _ _ _ Hinv).
  cbn [shared] in Ho, Hl.
  unfold thread_step.
  destruct (th_pc th) as [| | | | |g n| | | |] eqn:Epc;
    rewrite ?app_nil_r.
  - (* PFast *)
    rewrite Hl. destruct (Z.ltb_spec (severity (th_op th)) lvl); [lia|].
    apply (inv_local _ _ _ th); auto; same_region Epc.
  - (* PAssert *)
    rewrite Ho. cbn [is_null negb]. rewrite orb_true_r.
    apply (inv_local _ _ _ th); auto; same_region Epc.
  - (* PCas *)
    unfold sync_bool_compare_and_swap.
    destruct (Z.eqb_spec (g_lock s) 0) as [Hfree|Hheld]; rewrite app_nil_r.
    + apply inv_acquire; auto; same_region Epc.
    + rewrite with_lock_same.
      apply (inv_local _ _ _ th); auto; same_region Epc.
  - (* PYield *)
    apply (inv_local _ _ _ th); auto; same_region Epc.
  - (* PCheck *)
    rewrite Ho, Hl.
    destruct (Z.geb_spec (severity (th_op th)) lvl); [|lia].
    rewrite app_nil_r.
    apply (inv_local _ _ _ th); auto; same_region Epc.
  - (* PWrite *)
    destruct (nth_error (text_of render th) n) as [c|] eqn:Hnth.
    + apply inv_byte; auto.
    + rewrite app_nil_r.
      apply (inv_local _ _ _ th); auto; try solve [same_region Epc].
      unfold partial. cbn [at_pc th_pc]. rewrite Epc.
      change (text_of render (at_pc PFlush th)) with (text_of render th).
      symmetry. apply firstn_all2. apply nth_error_None. exact Hnth.
  - (* PFlush *)
    apply (inv_local _ _ _ th); auto; same_region Epc.
  - (* PUnlock *)
    apply inv_release; auto.
  - (* PDone *)
    apply (inv_local _ _ _ th); auto; same_region Epc.
  - (* PAbort *)
    destruct Hpc.
Qed.

Lemma nth_error_middle (l : list thread) (k : nat) (th : thread) :
  nth_error l k = Some th -> l = firstn k l ++ th :: skipn (S k) l.
Proof.
  revert k. induction l as [|a l IH]; intros [|k] H; cbn in *;
    try discriminate.
  - injection H as ->. reflexivity.
  - f_equal. apply IH. exact H.
Qed.

Lemma sys_step_inv k c : sys_inv c -> sys_inv (sys_step NDEBUG render k c).
Proof.
  intros Hinv. unfold sys_step.
  destruct (nth_error (threads c) k) as [th|] eqn:Hk; [|exact Hinv].
  destruct c as [s w ths]. cbn [shared wire threads] in *.
  assert (Hsplit := nth_error_middle ths k th Hk).
  set (l1 := firstn k ths) in *. set (l2 := skipn (S k) ths) in *.
  clearbody l1 l2. subst ths.
  exact (thread_step_inv s w l1 th l2 Hinv).
Qed.

Lemma sys_run_inv sched c :
  sys_inv c -> sys_inv (sys_run NDEBUG render sched c).
Proof.
  revert c. induction sched as [|k sched IH]; intros c Hinv; cbn; auto.
  apply IH. apply sys_step_inv. exact Hinv.
Qed.

End Serialized.

(** The jobs of the threads never change. *)
Lemma sys_step_jobs nd render k c :
  map job_of (threads (sys_step nd render k c)) = map job_of (threads c).
Proof.
  unfold sys_step.
  destruct (nth_error (threads c) k) as [th|] eqn:Hk; [|reflexivity].
  destruct (thread_step nd render th (shared c)) as [[s' out] p'].
  cbn [threads].
  rewrite (nth_error_middle (threads c) k th Hk) at 3.
  rewrite !map_app. reflexivity.
Qed.

Lemma sys_run_jobs nd render sched c :
  map job_of (threads (sys_run nd render sched c)) = map job_of (threads c).
Proof.
  revert c. induction sched as [|k sched IH]; intros c; cbn; auto.
  rewrite IH. apply sys_step_jobs.
Qed.

Lemma spawn_jobs jobs s : map job_of (threads (spawn jobs s)) = jobs.
Proof.
  unfold spawn. cbn [threads]. rewrite map_map.
  induction jobs as [|[[e fmt] args] jobs IH]; [reflexivity|].
  cbn [map]. rewrite IH. reflexivity.
Qed.

Lemma spawn_holders jobs s : holders (threads (spawn jobs s)) = 0%nat.
Proof.
  unfold spawn. cbn [threads].
  induction jobs as [|j jobs IH]; [reflexivity|].
  cbn [map]. rewrite holders_cons. exact IH.
Qed.

Lemma spawn_not_done jobs s : filter done_th (threads (spawn jobs s)) = [].
Proof.
  unfold spawn. cbn [threads].
  induction jobs as [|j jobs IH]; [reflexivity|exact IH].
Qed.

Lemma spawn_inv render jobs s f :
  g_lock s = 0 ->
  g_output s = Some f ->
  (forall j, In j jobs -> g_level s <= severity (fst (fst j))) ->
  sys_inv render f (g_level s) (spawn jobs s).
Proof.
  intros Hfree Hout Hsev. constructor.
  - exact Hout.
  - reflexivity.
  - unfold spawn. cbn [threads]. apply Forall_forall. intros th Hth.
    apply in_map_iff in Hth. destruct Hth as (j & <- & Hj).
    split; [exact (Hsev j Hj)|exact I].
  - rewrite spawn_holders. exact Hfree.
  - rewrite spawn_holders. lia.
  - exists []. rewrite spawn_not_done. split; [constructor|].
    rewrite (partial_none render _ (spawn_holders jobs s)). reflexivity.
Qed.

Lemma all_done_filter ths :
  forallb done_th ths = true -> filter done_th ths = ths /\ holders ths = 0%nat.
Proof.
  induction ths as [|th ths IH]; [split; reflexivity|].
  cbn [forallb filter]. intros H. apply andb_true_iff in H.
  destruct H as [Hd Hr]. rewrite Hd. destruct (IH Hr) as [-> Hh].
  split; [reflexivity|]. rewrite holders_cons, Hh.
  unfold done_th in Hd. unfold in_cs. destruct (th_pc th); try discriminate.
  reflexivity.
Qed.

Lemma sink_bytes_tagged f (l : list ascii) :
  sink_bytes f (map (pair f) l) = l.
Proof.
  unfold sink_bytes. induction l as [|a l IH]; [reflexivity|].
  cbn. rewrite Nat.eqb_refl. cbn. f_equal. exact IH.
Qed.

Lemma text_of_message render th : text_of render th = message render (job_of th).
Proof. reflexivity. Qed.

(** Once all the threads have returned. *)
Lemma final_contents
    (nd : bool) (render : string -> va_list -> string)
    (jobs : list (emission * string * va_list)) (s : logger) (f : FILE)
    (sched : list nat) :
  g_lock s = 0 ->
  g_output s = Some f ->
  (forall j, In j jobs -> g_level s <= severity (fst (fst j))) ->
  all_done (sys_run nd render sched (spawn jobs s)) = true ->
  exists order,
    Permutation order (map (message render) jobs) /\
    sink_bytes f (wire (sys_run nd render sched (spawn jobs s)))
    = List.concat order /\
    g_lock (shared (sys_run nd render sched (spawn jobs s))) = 0.
Proof.
  intros Hfree Hout Hsev Hdone.
  assert (Hinv := sys_run_inv nd render f (g_level s) sched _
                    (spawn_inv render jobs s f Hfree Hout Hsev)).
  assert (Hjobs := sys_run_jobs nd render sched (spawn jobs s)).
  rewrite spawn_jobs in Hjobs.
  set (c := sys_run nd render sched (spawn jobs s)) in *.
  destruct Hinv as [_ _ _ Hk _ (D & HD & Hw)].
  apply all_done_filter in Hdone. destruct Hdone as [Hall Hnone].
  rewrite Hall in HD. exists D. repeat split.
  - rewrite <- Hjobs, map_map.
    erewrite map_ext; [exact HD|]. intros th. symmetry.
    apply text_of_message.
  - rewrite Hw, (partial_none render _ Hnone), app_nil_r.
    apply sink_bytes_tagged.
  - rewrite Hk, Hnone. reflexivity.
Qed.

(** While the threads run: complete messages, then at most the beginning
    of one. *)
Lemma partial_single render ths :
  (holders ths <= 1)%nat ->
  List.concat (map (partial render) ths) = [] \/
  exists th n,
    In th ths /\
    List.concat (map (partial render) ths) = firstn n (text_of render th).
Proof.
  induction ths as [|th ths IH]; [left; reflexivity|].
  rewrite holders_cons. cbn [map List.concat]. intros Hm.
  destruct (in_cs th) eqn:Ecs.
  - right. rewrite (partial_none render ths) by lia. rewrite app_nil_r.
    unfold partial. unfold in_cs in Ecs.
    destruct (th_pc th) as [| | | | |g n| | | |]; try discriminate.
    + exists th, 0%nat. split; [left; reflexivity|reflexivity].
    + exists th, n. split; [left; reflexivity|reflexivity].
    + exists th, (List.length (text_of render th)).
      split; [left; reflexivity|]. symmetry. apply firstn_all.
    + exists th, (List.length (text_of render th)).
      split; [left; reflexivity|]. symmetry. apply firstn_all.
  - rewrite (partial_outside render th Ecs). cbn [app].
    destruct (IH Hm) as [H|(th' & n & Hin & H)]; [left; exact H|].
    right. exists th', n. split; [right; exact Hin|exact H].
Qed.

Lemma running_contents
    (nd : bool) (render : string -> va_list -> string)
    (jobs : list (emission * string * va_list)) (s : logger) (f : FILE)
    (sched : list nat) :
  g_lock s = 0 ->
  g_output s = Some f ->
  (forall j, In j jobs -> g_level s <= severity (fst (fst j))) ->
  exists D p,
    Permutation D
      (map (text_of render)
         (filter done_th (threads (sys_run nd render sched (spawn jobs s))))) /\
    sink_bytes f (wire (sys_run nd render sched (spawn jobs s)))
    = List.concat D ++ p /\
    (p = [] \/ exists j n, In j jobs /\ p = firstn n (message render j)).
Proof.
  intros Hfree Hout Hsev.
  assert (Hinv := sys_run_inv nd render f (g_level s) sched _
                    (spawn_inv render jobs s f Hfree Hout Hsev)).
  assert (Hjobs := sys_run_jobs nd render sched (spawn jobs s)).
  rewrite spawn_jobs in Hjobs.
  set (c := sys_run nd render sched (spawn jobs s)) in *.
  destruct Hinv as [_ _ _ _ Hm (D & HD & Hw)].
  exists D, (List.concat (map (partial render) (threads c))).
  split; [exact HD|]. split; [rewrite Hw; apply sink_bytes_tagged|].
  destruct (partial_single render _ Hm) as [H|(th & n & Hin & H)];
    [left; exact H|].
  right. exists (job_of th), n. split; [|exact H].
  rewrite <- Hjobs. apply in_map. exact Hin.
Qed.

(** ** A schedule under which every thread returns *)

Lemma middle_nth (l1 : list thread) th l2 :
  nth_error (l1 ++ th :: l2) (List.length l1) = Some th.
Proof. induction l1 as [|a l1 IH]; cbn; auto. Qed.

Lemma middle_firstn (l1 : list thread) th l2 :
  firstn (List.length l1) (l1 ++ th :: l2) = l1.
Proof. induction l1 as [|a l1 IH]; cbn; congruence. Qed.

Lemma middle_skipn (l1 : list thread) th l2 :
  skipn (S (List.length l1)) (l1 ++ th :: l2) = l2.
Proof. induction l1 as [|a l1 IH]; cbn in *; auto. Qed.

Lemma sys_step_middle nd render s w l1 th l2 :
  sys_step nd render (List.length l1) (mkSystem s w (l1 ++ th :: l2))
  = let '(s', out, p') := thread_step nd render th s in
    mkSystem s' (w ++ out) (l1 ++ at_pc p' th :: l2).
Proof.
  unfold sys_step. cbn [threads shared wire].
  rewrite middle_nth, middle_firstn, middle_skipn. reflexivity.
Qed.

Lemma sys_run_app nd render sched1 sched2 c :
  sys_run nd render (sched1 ++ sched2) c
  = sys_run nd render sched2 (sys_run nd render sched1 c).
Proof.
  revert c. induction sched1 as [|k sched1 IH]; intros c; cbn; auto.
Qed.

(** The loop inside [vfprintf], run without interruption. *)
Lemma write_loop nd render s w l1 th l2 f rest :
  forall n,
    skipn n (text_of render th) = rest ->
    sys_run nd render (repeat (List.length l1) (S (List.length rest)))
      (mkSystem s w (l1 ++ at_pc (PWrite f n) th :: l2))
    = mkSystem s (w ++ map (pair f) rest) (l1 ++ at_pc PFlush th :: l2).
Proof.
  revert w. induction rest as [|c rest IH]; intros w n Hrest.
  - cbn [List.length repeat sys_run]. rewrite sys_step_middle.
    unfold thread_step. cbn [at_pc th_pc].
    change (text_of render (at_pc (PWrite f n) th)) with (text_of render th).
    assert (Hnone : nth_error (text_of render th) n = None).
    { apply nth_error_None.
      destruct (Nat.le_gt_cases (List.length (text_of render th)) n) as [H|H];
        [exact H|].
      apply (f_equal (@List.length ascii)) in Hrest.
      rewrite length_skipn in Hrest. cbn in Hrest. lia. }
    rewrite Hnone. cbn [map]. reflexivity.
  - change (repeat (List.length l1) (S (List.length (c :: rest))))
      with (List.length l1 :: repeat (List.length l1) (S (List.length rest))).
    cbn [sys_run]. rewrite sys_step_middle.
    unfold thread_step. cbn [at_pc th_pc].
    change (text_of render (at_pc (PWrite f n) th)) with (text_of render th).
    assert (Hsome : nth_error (text_of render th) n = Some c
                    /\ skipn (S n) (text_of render th) = rest).
    { clear IH. revert n Hrest.
      induction (text_of render th) as [|a l IHl]; intros [|n] Hrest;
        cbn in *; try discriminate.
      - injection Hrest as -> ->. auto.
      - apply IHl. exact Hrest. }
    destruct Hsome as [Hnth Hskip]. rewrite Hnth.
    change (at_pc (PWrite f (S n)) (at_pc (PWrite f n) th))
      with (at_pc (PWrite f (S n)) th).
    rewrite (IH (w ++ [(f, c)]) (S n) Hskip).
    cbn [map]. rewrite <- app_assoc. reflexivity.
Qed.

(** One emission, run without interruption on a free lock. *)
Lemma solo_run nd render s w l1 th l2 f :
  g_lock s = 0 ->
  g_output s = Some f ->
  g_level s <= severity (th_op th) ->
  th_pc th = PFast ->
  sys_run nd render
    (repeat (List.length l1) (7 + List.length (text_of render th)))
    (mkSystem s w (l1 ++ th :: l2))
  = mkSystem s (w ++ map (pair f) (text_of render th))
      (l1 ++ at_pc PDone th :: l2).
Proof.
  intros Hfree Hout Hsev Epc.
  replace (7 + List.length (text_of render th))%nat
    with (4 + (S (List.length (text_of render th)) + 2))%nat by lia.
  rewrite !repeat_app, !sys_run_app.
  change (repeat (List.length l1) 4)
    with [List.length l1; List.length l1; List.length l1; List.length l1].
  change (repeat (List.length l1) 2) with [List.length l1; List.length l1].
  cbn [sys_run].
  (* the fast path, the assertion, the compare-and-swap, the locked check *)
  rewrite sys_step_middle. unfold thread_step at 1. rewrite Epc.
  destruct (Z.ltb_spec (severity (th_op th)) (g_level s)) as [|_]; [lia|].
  rewrite sys_step_middle. unfold thread_step at 1. cbn [at_pc th_pc].
  rewrite Hout. cbn [is_null negb]. rewrite orb_true_r.
  rewrite sys_step_middle. unfold thread_step at 1. cbn [at_pc th_pc].
  unfold sync_bool_compare_and_swap. rewrite Hfree. cbn [Z.eqb].
  rewrite sys_step_middle. unfold thread_step at 1.
  cbn [at_pc th_pc th_op with_lock g_output g_level]. rewrite Hout.
  destruct (Z.geb_spec (severity (th_op th)) (g_level s)) as [_|]; [|lia].
  (* the text *)
  rewrite !app_nil_r.
  change (at_pc (PWrite f 0) (at_pc PCheck (at_pc PCas (at_pc PAssert th))))
    with (at_pc (PWrite f 0) th).
  rewrite (write_loop nd render _ w l1 th l2 f (text_of render th) 0 eq_refl).
  (* the flush and the release *)
  rewrite sys_step_middle. unfold thread_step at 1. cbn [at_pc th_pc].
  rewrite sys_step_middle. unfold thread_step at 1. cbn [at_pc th_pc].
  rewrite !app_nil_r. unfold spinlock_unlock.
  destruct s as [l o v]. cbn in Hfree. subst l. reflexivity.
Qed.

Lemma run_to_completion nd render f l2 :
  forall s w l1,
    g_lock s = 0 ->
    g_output s = Some f ->
    forallb done_th l1 = true ->
    Forall (fun th => th_pc th = PFast /\ g_level s <= severity (th_op th)) l2 ->
    exists sched,
      all_done (sys_run nd render sched (mkSystem s w (l1 ++ l2))) = true.
Proof.
  induction l2 as [|th l2 IH]; intros s w l1 Hfree Hout Hdone Hfast.
  - exists []. cbn. rewrite app_nil_r. exact Hdone.
  - apply Forall_cons_iff in Hfast. destruct Hfast as [[Epc Hsev] Hrest].
    destruct (IH s (w ++ map (pair f) (text_of render th))
                (l1 ++ [at_pc PDone th]) Hfree Hout) as [sched Hsched].
    + rewrite forallb_app, Hdone. reflexivity.
    + exact Hrest.
    + exists (repeat (List.length l1) (7 + List.length (text_of render th))
              ++ sched).
      rewrite sys_run_app.
      rewrite (solo_run nd render s w l1 th l2 f Hfree Hout Hsev Epc).
      rewrite <- app_assoc in Hsched. exact Hsched.
Qed.

Lemma spawn_completes nd render jobs s f :
  g_lock s = 0 ->
  g_output s = Some f ->
  (forall j, In j jobs -> g_level s <= severity (fst (fst j))) ->
  exists sched, all_done (sys_run nd render sched (spawn jobs s)) = true.
Proof.
  intros Hfree Hout Hsev.
  apply (run_to_completion nd render f _ s [] [] Hfree Hout eq_refl).
  apply Forall_forall. intros th Hth.
  apply in_map_iff in Hth. destruct Hth as (j & <- & Hj).
  split; [reflexivity|exact (Hsev j Hj)].
Qed.

(** C4: the logger is initialised with sink [f], and each thread performs
    one emission at or above the threshold, its text reaching the stream
    byte by byte.  Some schedule lets every thread return.  Under every
    schedule, at every moment, the bytes received by the sink are complete
    rendered messages of returned threads followed by at most the beginning
    of one more message; and once all the threads have returned they are the
    concatenation of the complete messages, one per thread, in some order,
    with the lock free again. *)
Theorem emissions_serialized
    (nd : bool) (render : string -> va_list -> string)
    (jobs : list (emission * string * va_list)) (s : logger) (f : FILE) :
  g_lock s = 0 ->
  g_output s = Some f ->
  (forall j, In j jobs -> g_level s <= severity (fst (fst j))) ->
  (exists sched, all_done (sys_run nd render sched (spawn jobs s)) = true) /\
  (forall sched,
     exists D p,
       Permutation D
         (map (text_of render)
            (filter done_th
               (threads (sys_run nd render sched (spawn jobs s))))) /\
       sink_bytes f (wire (sys_run nd render sched (spawn jobs s)))
       = List.concat D ++ p /\
       (p = [] \/ exists j n, In j jobs /\ p = firstn n (message render j))) /\
  (forall sched,
     all_done (sys_run nd render sched (spawn jobs s)) = true ->
     exists order,
       Permutation order (map (message render) jobs) /\
       sink_bytes f (wire (sys_run nd render sched (spawn jobs s)))
       = List.concat order /\
       g_lock (shared (sys_run nd render sched (spawn jobs s))) = 0).
Proof.
  intros Hfree Hout Hsev. split; [|split].
  - exact (spawn_completes nd render jobs s f Hfree Hout Hsev).
  - intros sched.
    exact (running_contents nd render jobs s f sched Hfree Hout Hsev).
  - intros sched.
    exact (final_contents nd render jobs s f sched Hfree Hout Hsev).
Qed.

Lemma demo_jobs_at_threshold :
  forall j, In j demo_jobs -> g_level demo_logger <= severity (fst (fst j)).
Proof.
  intros j [<-|[<-|[<-|[]]]]; cbv; discriminate.
Defined.

Lemma emissions_serialized_witness :
  all_done (sys_run false printf_text demo_sched (spawn demo_jobs demo_logger))
  = true /\
  string_of_list_ascii
    (sink_bytes 7%nat
       (wire (sys_run false printf_text demo_sched
                (spawn demo_jobs demo_logger))))
  = "cc;A1;bb;"%string /\
  exists order,
    Permutation order (map (message printf_text) demo_jobs) /\
    sink_bytes 7%nat
      (wire (sys_run false printf_text demo_sched
               (spawn demo_jobs demo_logger)))
    = List.concat order /\
    g_lock (shared (sys_run false printf_text demo_sched
                      (spawn demo_jobs demo_logger))) = 0.
Proof.
  split; [reflexivity|]. split; [reflexivity|].
  apply (proj2 (proj2 (emissions_serialized false printf_text demo_jobs
                         demo_logger 7%nat eq_refl eq_refl
                         demo_jobs_at_threshold))).
  reflexivity.
Defined.

(** While the third thread is inside [vfprintf], the two others spin, and
    the sink holds the beginning of its message only. *)
Example demo_contention :
  let c := sys_run false printf_text (firstn 12 demo_sched)
             (spawn demo_jobs demo_logger) in
  map th_pc (threads c) = [PCas; PYield; PWrite 7%nat 1] /\
  g_lock (shared c) = 1 /\
  string_of_list_ascii (sink_bytes 7%nat (wire c)) = "c"%string.
Proof. repeat split. Qed.

(** * Further properties of the code *)

(** ** The spin loop and a held lock *)

(** X1: [spinlock_lock] returns exactly when it finds the cell at 0, and
    leaves 1 in it, which [spinlock_unlock] turns back into 0; on any other
    content, 1 or not, a thread running alone never gets out of the loop. *)
Theorem spinlock_lock_spec (fuel : nat) (lock : Z) :
  spinlock_lock (S fuel) lock = (if lock =? 0 then Some 1 else None) /\
  (lock <> 0 -> forall n, spinlock_lock n lock = None) /\
  option_map spinlock_unlock (spinlock_lock (S fuel) 0) = Some 0.
Proof.
  split; [|split; [|reflexivity]].
  - destruct (Z.eqb_spec lock 0) as [->|Hheld]; [reflexivity|].
    apply spinlock_lock_held. exact Hheld.
  - intros Hheld n. apply spinlock_lock_held. exact Hheld.
Qed.

Lemma lock_g_lock_held (fuel : nat) (s : logger) (t : trace) :
  g_lock s <> 0 -> lock_g_lock fuel s t = Spins s t.
Proof.
  intros H. unfold lock_g_lock. rewrite (spinlock_lock_held fuel _ H).
  reflexivity.
Qed.

(** X2: while the lock is held, as in a call made from inside the critical
    section, [zlog_init], [zlog_set_level], [zlog_shutdown] and every
    emission that passes the fast path and the assertion spin for ever,
    leaving state and trace untouched; [zlog_get_level] and the emissions
    below the threshold still return, since they never take the lock. *)
Theorem held_lock_blocks
    (nd : bool) (fuel : nat) (render : string -> va_list -> string)
    (out : option FILE) (level : Z) (e : emission) (fmt : string)
    (args : va_list) (s : logger) (t : trace) :
  g_lock s <> 0 ->
  zlog_init fuel out level s t = Spins s t /\
  zlog_set_level fuel level s t = Spins s t /\
  zlog_shutdown fuel s t = Spins s t /\
  (g_level s <= severity e -> nd || negb (is_null (g_output s)) = true ->
     zlog_emit nd fuel render e fmt args s t = Spins s t) /\
  (severity e < g_level s ->
     zlog_emit nd fuel render e fmt args s t = Returned tt s t) /\
  zlog_get_level s t = Returned (g_level s) s t.
Proof.
  intros Hheld.
  assert (Hspin := lock_g_lock_held fuel s t Hheld).
  repeat split.
  - unfold zlog_init, bind. rewrite Hspin. reflexivity.
  - unfold zlog_set_level, bind. rewrite Hspin. reflexivity.
  - unfold zlog_shutdown, bind. rewrite Hspin. reflexivity.
  - intros Hcmp Hassert. rewrite zlog_emit_unfold.
    destruct (Z.ltb_spec (severity e) (g_level s)); [lia|].
    unfold zlog_write, bind, read, assert. rewrite Hassert, Hspin.
    reflexivity.
  - intros Hcmp. rewrite zlog_emit_unfold.
    apply Z.ltb_lt in Hcmp. rewrite Hcmp. reflexivity.
Qed.

Lemma held_lock_blocks_witness :
  let s := {| g_lock := 1; g_output := Some 7%nat; g_level := ZLOG_INFO |} in
  g_lock s <> 0 /\
  zlog_set_level 9 ZLOG_DEBUG s [] = Spins s [] /\
  zlog_emit false 9 printf_text Debug "quiet" [] s [] = Returned tt s [].
Proof.
  pose (s := {| g_lock := 1; g_output := Some 7%nat; g_level := ZLOG_INFO |}).
  assert (Hheld : g_lock s <> 0) by discriminate.
  destruct (held_lock_blocks false 9 printf_text None ZLOG_DEBUG Debug
              "quiet" [] s [] Hheld) as (_ & Hset & _ & _ & Hfast & _).
  split; [exact Hheld|]. split; [exact Hset|]. apply Hfast. reflexivity.
Defined.

(** ** validate_level *)

(** X3: [validate_level] leaves a level as it is exactly when the level is
    one of the six of [ZlogLevel]; applying it twice is applying it once. *)
Theorem validate_level_fixpoints (level : Z) :
  (validate_level level = level <-> valid_level level) /\
  validate_level (validate_level level) = validate_level level.
Proof.
  split; [split|].
  - intros H. rewrite <- H. apply validate_level_range.
  - apply validate_level_valid.
  - apply validate_level_valid. apply validate_level_range.
Qed.

(** ** zlog_init and zlog_set_level *)

(** X4: on a free lock, [zlog_init(out, L)] with a valid [L] returns with
    the sink set to [out], or to the default error stream when [out] is
    [NULL], and the threshold set to [L], whatever was configured before;
    [zlog_get_level] then returns [L]; the stream that was the sink before is
    neither closed nor flushed. *)
Theorem init_stores_sink_and_level
    (fuel : nat) (out : option FILE) (L : Z) (s : logger) (t : trace) :
  g_lock s = 0 ->
  valid_level L ->
  zlog_init (S fuel) out L s t
  = Returned tt {| g_lock := 0; g_output := Some (sink_of out); g_level := L |}
      t /\
  (zlog_init (S fuel) out L ;; zlog_get_level) s t
  = Returned L {| g_lock := 0; g_output := Some (sink_of out); g_level := L |}
      t.
Proof.
  intros Hfree HL.
  assert (H : zlog_init (S fuel) out L s t
              = Returned tt {| g_lock := 0; g_output := Some (sink_of out);
                               g_level := L |} t).
  { rewrite (zlog_init_unlocked fuel out L s t Hfree).
    rewrite (validate_level_valid L HL). reflexivity. }
  split; [exact H|]. unfold bind at 1. rewrite H. reflexivity.
Qed.

Lemma init_stores_sink_and_level_witness :
  let s := {| g_lock := 0; g_output := Some 7%nat; g_level := ZLOG_FATAL |} in
  valid_level ZLOG_TRACE /\
  zlog_init 1 None ZLOG_TRACE s []
  = Returned tt
      {| g_lock := 0; g_output := Some stderr; g_level := ZLOG_TRACE |} [].
Proof.
  assert (HL : valid_level ZLOG_TRACE) by (split; discriminate).
  split; [exact HL|].
  exact (proj1 (init_stores_sink_and_level 0 None ZLOG_TRACE
                  {| g_lock := 0; g_output := Some 7%nat;
                     g_level := ZLOG_FATAL |} [] eq_refl HL)).
Defined.

(** X5: of two configuration calls in a row the last one wins: a second
    [zlog_init] replaces sink and threshold of the first, whose stream is
    left open, and a second [zlog_set_level] replaces the threshold of the
    first, for all arguments, valid or not. *)
Theorem last_configuration_wins
    (fuel fuel' : nat) (out out' : option FILE) (level level' : Z)
    (s : logger) (t : trace) :
  g_lock s = 0 ->
  (zlog_init (S fuel) out level ;; zlog_init (S fuel') out' level') s t
  = zlog_init (S fuel') out' level' s t /\
  (zlog_set_level (S fuel) level ;; zlog_set_level (S fuel') level') s t
  = zlog_set_level (S fuel') level' s t /\
  (zlog_set_level (S fuel) level ;; zlog_init (S fuel') out' level') s t
  = zlog_init (S fuel') out' level' s t.
Proof.
  intros Hfree. unfold bind.
  rewrite (zlog_init_unlocked fuel out level s t Hfree).
  rewrite (zlog_set_level_unlocked fuel level s t Hfree).
  rewrite !zlog_init_unlocked, !zlog_set_level_unlocked; auto.
Qed.

Lemma last_configuration_wins_witness :
  (zlog_init 1 (Some 7%nat) ZLOG_ERR ;; zlog_init 1 (Some 8%nat) 42)
    logger0 []
  = Returned tt
      {| g_lock := 0; g_output := Some 8%nat; g_level := ZLOG_INFO |} [].
Proof.
  rewrite (proj1 (last_configuration_wins 0 0 (Some 7%nat) (Some 8%nat)
                    ZLOG_ERR 42 logger0 [] eq_refl)).
  reflexivity.
Defined.


(** ** Emission *)

(** X6: [zlog_init(out, L)] with a valid [L], followed by an emission:
    whatever the build, the call returns; the rendered text goes, in one
    write and a flush, to [out] (to the default error stream when [out] is
    [NULL]) if the severity is at least [L], and nothing is written
    otherwise. *)
Theorem init_then_emit
    (nd : bool) (fuel fuel' : nat) (render : string -> va_list -> string)
    (out : option FILE) (L : Z) (e : emission) (fmt : string) (args : va_list)
    (s : logger) (t : trace) :
  g_lock s = 0 ->
  valid_level L ->
  (zlog_init (S fuel) out L ;; zlog_emit nd (S fuel') render e fmt args) s t
  = Returned tt {| g_lock := 0; g_output := Some (sink_of out); g_level := L |}
      (if L <=? severity e
       then t ++ write_events render (sink_of out) fmt args
       else t).
Proof.
  intros Hfree HL. unfold bind.
  rewrite (zlog_init_unlocked fuel out L s t Hfree).
  rewrite (validate_level_valid L HL), zlog_emit_unfold.
  change (match out with Some f => f | None => stderr end) with (sink_of out).
  rewrite (zlog_write_sink nd fuel' render _ fmt args
             {| g_lock := 0; g_output := Some (sink_of out); g_level := L |}
             t (sink_of out) eq_refl eq_refl).
  cbn [g_level]. unfold write_events.
  destruct (Z.ltb_spec (severity e) L), (Z.leb_spec L (severity e)),
    (Z.geb_spec (severity e) L); try lia; reflexivity.
Qed.

Lemma init_then_emit_witness :
  valid_level ZLOG_WARN /\
  (zlog_init 1 None ZLOG_WARN ;;
   zlog_emit false 1 printf_text Err "code %d" [VInt 7]) logger0 []
  = Returned tt
      {| g_lock := 0; g_output := Some stderr; g_level := ZLOG_WARN |}
      [Ev_vfprintf stderr "code 7"; Ev_fflush stderr].
Proof.
  assert (HL : valid_level ZLOG_WARN) by (split; discriminate).
  split; [exact HL|].
  exact (init_then_emit false 0 0 printf_text None ZLOG_WARN Err "code %d"
           [VInt 7] logger0 [] eq_refl HL).
Defined.

Lemma spinlock_lock_cases (fuel : nat) (lock : Z) :
  spinlock_lock fuel lock = None \/
  (lock = 0 /\ exists fuel', fuel = S fuel').
Proof.
  destruct fuel as [|fuel']; [left; reflexivity|].
  destruct (Z.eq_dec lock 0) as [->|Hheld]; [right; eauto|].
  left. apply spinlock_lock_held. exact Hheld.
Qed.

(** How [zlog_write] may end: with the trace as it was; with one write and
    its flush on the sink; or, in a build with assertions and without a
    sink, at the failed [assert]. *)
Lemma zlog_write_cases nd fuel render level fmt args s t :
  let o := zlog_write nd fuel render level fmt args s t in
  state_of o = s /\
  (trace_of o = t \/
   (exists f, g_output s = Some f /\
              trace_of o = t ++ write_events render f fmt args) \/
   (nd = false /\ g_output s = None /\
    o = Aborted s (t ++ [Ev_assert_fail]))).
Proof.
  cbv zeta.
  destruct (g_output s) as [f|] eqn:Hout.
  - destruct (spinlock_lock_cases fuel (g_lock s)) as [Hnone|[Hfree [n ->]]].
    + unfold zlog_write, bind, read, assert. rewrite Hout. cbn [is_null negb].
      rewrite orb_true_r. unfold lock_g_lock. rewrite Hnone. cbn. auto.
    + rewrite (zlog_write_sink nd n render level fmt args s t f Hfree Hout).
      cbn. split; [reflexivity|].
      destruct (level >=? g_level s); [right; left; eauto|left; reflexivity].
  - destruct nd.
    + destruct (spinlock_lock_cases fuel (g_lock s))
        as [Hnone|[Hfree [n ->]]].
      * unfold zlog_write, bind, read, assert. cbn [orb].
        unfold lock_g_lock. rewrite Hnone. cbn. auto.
      * rewrite (zlog_write_null_ndebug n render level fmt args s t Hfree Hout).
        cbn. auto.
    + rewrite (zlog_write_null_assert fuel render level fmt args s t Hout).
      cbn. auto 10.
Qed.

Lemma zlog_emit_cases nd fuel render e fmt args s t :
  let o := zlog_emit nd fuel render e fmt args s t in
  state_of o = s /\
  (trace_of o = t \/
   (exists f, g_output s = Some f /\
              trace_of o = t ++ write_events render f fmt args) \/
   (nd = false /\ g_output s = None /\
    o = Aborted s (t ++ [Ev_assert_fail]))).
Proof.
  cbv zeta. rewrite zlog_emit_unfold.
  destruct (severity e <? g_level s); [cbn; auto|].
  apply zlog_write_cases.
Qed.

(** X7: an emission never changes the configuration and never closes a
    stream.  However it ends, and whatever the state of the lock, the logger
    state afterwards is the one before, and the trace is unchanged, or
    extended by one write and one flush on the current sink, or, only in a
    build with assertions and with no sink set, extended by the diagnostic
    that the failed [assert] writes to the standard error stream before the
    abort.  So a stream that is neither the sink nor the standard error
    stream is never touched, and when the assertion cannot fail no stream
    but the sink is touched. *)
Theorem emission_keeps_configuration
    (nd : bool) (fuel : nat) (render : string -> va_list -> string)
    (e : emission) (fmt : string) (args : va_list) (s : logger) (t : trace) :
  state_of (zlog_emit nd fuel render e fmt args s t) = s /\
  exists extra,
    trace_of (zlog_emit nd fuel render e fmt args s t) = t ++ extra /\
    closes extra = [] /\
    (extra = [] \/
     (exists f, g_output s = Some f /\
                extra = write_events render f fmt args) \/
     (extra = [Ev_assert_fail] /\ nd = false /\ g_output s = None /\
      zlog_emit nd fuel render e fmt args s t = Aborted s (t ++ extra))) /\
    (forall g, g_output s <> Some g -> g <> stderr ->
               stream_calls g extra = []) /\
    (nd || negb (is_null (g_output s)) = true ->
     forall g, g_output s <> Some g -> stream_calls g extra = []).
Proof.
  destruct (zlog_emit_cases nd fuel render e fmt args s t)
    as [Hs [Ht|[(f & Hout & Ht)|(Hnd & Hout & Ho)]]].
  - split; [exact Hs|]. exists []. rewrite Ht, app_nil_r. cbn. auto 6.
  - split; [exact Hs|]. exists (write_events render f fmt args).
    split; [exact Ht|]. split; [reflexivity|].
    split; [right; left; eauto|].
    assert (H : forall g, g_output s <> Some g ->
                          stream_calls g (write_events render f fmt args) = []).
    { intros g Hg. unfold stream_calls, write_events. cbn [filter on_stream].
      destruct (Nat.eqb_spec f g) as [E|_]; [|reflexivity].
      subst g. contradiction. }
    split; [intros g Hg _; exact (H g Hg)|intros _; exact H].
  - split; [exact Hs|]. exists [Ev_assert_fail].
    split; [rewrite Ho; reflexivity|]. split; [reflexivity|].
    split; [right; right; auto|]. split.
    + intros g _ Hg. unfold stream_calls. cbn [filter on_stream].
      destruct (Nat.eqb_spec stderr g) as [E|_]; [congruence|reflexivity].
    + rewrite Hnd, Hout. discriminate.
Qed.

(** ** Histories of calls in a program with one thread *)

Lemma do_call_sequential nd fuel render c s t :
  g_lock s = 0 ->
  sequential_outcome nd (do_call nd (S fuel) render c s t).
Proof.
  intros Hfree.
  destruct c as [out level| | |level|e fmt args]; cbn [do_call].
  - rewrite (zlog_init_unlocked fuel out level s t Hfree). reflexivity.
  - rewrite (zlog_shutdown_unlocked fuel s t Hfree). exact Hfree.
  - exact Hfree.
  - rewrite (zlog_set_level_unlocked fuel level s t Hfree). exact Hfree.
  - rewrite zlog_emit_unfold.
    destruct (severity e <? g_level s); [exact Hfree|].
    destruct (g_output s) as [f|] eqn:Hout.
    + rewrite (zlog_write_sink nd fuel render _ fmt args s t f Hfree Hout).
      exact Hfree.
    + destruct nd.
      * rewrite (zlog_write_null_ndebug fuel render _ fmt args s t Hfree Hout).
        exact Hfree.
      * rewrite (zlog_write_null_assert (S fuel) render _ fmt args s t Hout).
        cbn. auto.
Qed.

Lemma run_sequential nd fuel render cs :
  forall s t,
    g_lock s = 0 -> sequential_outcome nd (run nd (S fuel) render cs s t).
Proof.
  induction cs as [|c cs IH]; intros s t Hfree; [exact Hfree|].
  rewrite run_cons.
  assert (Hc := do_call_sequential nd fuel render c s t Hfree).
  destruct (do_call nd (S fuel) render c s t) as [[] s' t'|s' t'|s' t'];
    cbn in Hc; [apply IH; exact Hc|exact Hc|destruct Hc].
Qed.

(** X8: a program with one thread never hangs in the spin loop: every
    history of calls from the initial state either returns, with the lock
    free, or aborts; it aborts only in a build with assertions, at a moment
    when no sink is set; with [NDEBUG] every history returns. *)
Theorem run_never_spins
    (nd : bool) (fuel : nat) (render : string -> va_list -> string)
    (history : list call) (t : trace) :
  sequential_outcome nd (run nd (S fuel) render history logger0 t) /\
  exists s' t', run true (S fuel) render history logger0 t = Returned tt s' t'.
Proof.
  split; [apply run_sequential; reflexivity|].
  assert (H := run_sequential true fuel render history logger0 t eq_refl).
  destruct (run true (S fuel) render history logger0 t) as [[] s' t'|s' t'|s' t'];
    cbn in H.
  - eauto.
  - destruct H as [H _]. discriminate.
  - destruct H.
Qed.

Lemma do_call_closes nd fuel render c s t f :
  In f (closes (trace_of (do_call nd fuel render c s t))) ->
  In f (closes t) \/ (g_output s = Some f /\ f <> stderr).
Proof.
  destruct c as [out level| | |level|e fmt args]; cbn [do_call].
  - unfold zlog_init, bind, lock_g_lock.
    destruct (spinlock_lock fuel (g_lock s)); cbn; auto.
  - unfold zlog_shutdown, bind, read, lock_g_lock.
    destruct (spinlock_lock fuel (g_lock s)); cbn; auto.
    destruct (g_output s) as [g|]; cbn; auto.
    destruct (Nat.eqb_spec g stderr) as [E|N]; cbn; auto.
    rewrite closes_app. cbn. intros H. apply in_app_or in H.
    destruct H as [H|[->|[]]]; auto.
  - cbn. auto.
  - unfold zlog_set_level, bind, lock_g_lock.
    destruct (spinlock_lock fuel (g_lock s)); cbn; auto.
  - destruct (zlog_emit_cases nd fuel render e fmt args s t)
      as [_ [Ht|[(g & _ & Ht)|(_ & _ & Ho)]]]; rewrite ?Ht, ?Ho; auto;
      cbn [trace_of]; rewrite closes_app; cbn; rewrite app_nil_r; auto.
Qed.

Lemma do_call_sink nd fuel render c s t f :
  g_output (state_of (do_call nd fuel render c s t)) = Some f ->
  g_output s = Some f \/
  f = stderr \/ exists level, c = Call_init (Some f) level.
Proof.
  destruct c as [out level| | |level|e fmt args]; cbn [do_call].
  - unfold zlog_init, bind, lock_g_lock.
    destruct (spinlock_lock fuel (g_lock s)); cbn; auto.
    destruct out as [g|]; intros [= <-]; eauto.
  - unfold zlog_shutdown, bind, read, lock_g_lock.
    destruct (spinlock_lock fuel (g_lock s)); cbn; auto.
    destruct (g_output s) as [g|]; cbn; try discriminate.
    destruct (Nat.eqb g stderr); cbn; discriminate.
  - cbn. auto.
  - unfold zlog_set_level, bind, lock_g_lock.
    destruct (spinlock_lock fuel (g_lock s)); cbn; auto.
  - destruct (zlog_emit_cases nd fuel render e fmt args s t) as [-> _]. auto.
Qed.

Lemma run_closes nd fuel render cs :
  forall s t (Q : FILE -> Prop) f,
    (forall g, g_output s = Some g -> g = stderr \/ Q g) ->
    In f (closes (trace_of (run nd fuel render cs s t))) ->
    In f (closes t) \/ (f <> stderr /\ (Q f \/ given cs f)).
Proof.
  induction cs as [|c cs IH]; intros s t Q f Hsink Hin; [left; exact Hin|].
  rewrite run_cons in Hin.
  assert (Hc := do_call_closes nd fuel render c s t f).
  assert (Hs := do_call_sink nd fuel render c s t).
  assert (Hstep : In f (closes (trace_of (do_call nd fuel render c s t))) ->
                  In f (closes t) \/ (f <> stderr /\ (Q f \/ given (c :: cs) f))).
  { intros H. destruct (Hc H) as [H'|[Hout Hne]]; [left; exact H'|].
    right. split; [exact Hne|]. left.
    destruct (Hsink f Hout); [contradiction|assumption]. }
  destruct (do_call nd fuel render c s t) as [[] s' t'|s' t'|s' t'];
    cbn [trace_of state_of] in *; auto.
  assert (Hsink' : forall g, g_output s' = Some g ->
                     g = stderr \/
                     (Q g \/ exists level, c = Call_init (Some g) level)).
  { intros g Hg. destruct (Hs g Hg) as [H|[H|H]]; auto.
    destruct (Hsink g H); auto. }
  destruct (IH s' t' _ f Hsink' Hin) as [H|[Hne H]]; [auto|].
  right. split; [exact Hne|].
  destruct H as [[H|[level H]]|H]; [left; exact H| |].
  - right. exists level. left. exact H.
  - right. destruct H as [level H]. exists level. right. exact H.
Qed.

(** X9: the logger closes only what it was given: in every history of calls
    from the initial state, every stream handed to [fclose] is a stream that
    an earlier [zlog_init] of the history received, and it is never the
    default error stream. *)
Theorem run_closes_only_given
    (nd : bool) (fuel : nat) (render : string -> va_list -> string)
    (history : list call) (f : FILE) :
  In f (closes (trace_of (run nd fuel render history logger0 []))) ->
  f <> stderr /\ given history f.
Proof.
  intros Hin.
  destruct (run_closes nd fuel render history logger0 [] (fun _ => False) f)
    as [[]|[Hne [[]|Hg]]]; auto.
  intros g [=].
Qed.

Lemma run_closes_only_given_witness :
  let history := [Call_init (Some 7%nat) ZLOG_INFO; Call_shutdown;
                  Call_init None ZLOG_INFO; Call_shutdown] in
  closes (trace_of (run false 1 printf_text history logger0 [])) = [7%nat] /\
  7%nat <> stderr /\ given history 7%nat.
Proof.
  split; [reflexivity|].
  apply (run_closes_only_given false 1 printf_text
           [Call_init (Some 7%nat) ZLOG_INFO; Call_shutdown;
            Call_init None ZLOG_INFO; Call_shutdown] 7%nat).
  left. reflexivity.
Defined.

(** X10: [zlog_fatal] is never filtered out: after any history of calls
    from the initial state that returned with a sink [f] set, it writes its
    rendered text to [f], whatever thresholds were asked for. *)
Theorem fatal_never_filtered
    (nd : bool) (fuel fuel' : nat) (render : string -> va_list -> string)
    (history : list call) (s : logger) (t : trace) (f : FILE)
    (fmt : string) (args : va_list) :
  run nd fuel render history logger0 [] = Returned tt s t ->
  g_output s = Some f ->
  zlog_fatal nd (S fuel') render fmt args s t
  = Returned tt s (t ++ write_events render f fmt args).
Proof.
  intros Hrun Hout.
  assert (Hfree : g_lock s = 0).
  { generalize (run_unlocked nd fuel render history logger0 [] eq_refl).
    rewrite Hrun. auto. }
  assert (Hok : level_ok s).
  { assert (H0 : level_ok logger0) by (split; discriminate).
    generalize (run_invariant level_ok nd fuel render
                  (fun c s t => do_call_level_ok nd fuel render c s t)
                  history logger0 [] H0).
    rewrite Hrun. auto. }
  change (zlog_fatal nd (S fuel') render fmt args s t)
    with (zlog_emit nd (S fuel') render Fatal fmt args s t).
  rewrite zlog_emit_unfold.
  rewrite (zlog_write_sink nd fuel' render _ fmt args s t f Hfree Hout).
  destruct Hok as [_ Hle]. cbn [severity].
  destruct (Z.ltb_spec ZLOG_FATAL (g_level s)); [lia|].
  destruct (Z.geb_spec ZLOG_FATAL (g_level s)); [reflexivity|lia].
Qed.

Lemma fatal_never_filtered_witness :
  let history := [Call_init (Some 7%nat) ZLOG_ERR; Call_set_level 6;
                  Call_set_level ZLOG_FATAL] in
  let s := {| g_lock := 0; g_output := Some 7%nat; g_level := ZLOG_FATAL |} in
  run false 1 printf_text history logger0 [] = Returned tt s [] /\
  zlog_fatal false 1 printf_text "boom" [] s []
  = Returned tt s [Ev_vfprintf 7%nat "boom"; Ev_fflush 7%nat].
Proof.
  split; [reflexivity|].
  exact (fatal_never_filtered false 1 0 printf_text
           [Call_init (Some 7%nat) ZLOG_ERR; Call_set_level 6;
            Call_set_level ZLOG_FATAL]
           {| g_lock := 0; g_output := Some 7%nat; g_level := ZLOG_FATAL |}
           [] 7%nat "boom" [] eq_refl eq_refl).
Defined.

(** ** Threads: what every schedule preserves *)

Lemma sys_step_preserves nd render (P : system -> Prop) :
  (forall s w l1 th l2,
     P (mkSystem s w (l1 ++ th :: l2)) ->
     P (let '(s', out, p') := thread_step nd render th s in
        mkSystem s' (w ++ out) (l1 ++ at_pc p' th :: l2))) ->
  forall k c, P c -> P (sys_step nd render k c).
Proof.
  intros Hstep k c Hc. unfold sys_step.
  destruct (nth_error (threads c) k) as [th|] eqn:Hk; [|exact Hc].
  destruct c as [s w ths]. cbn [shared wire threads] in *.
  assert (Hsplit := nth_error_middle ths k th Hk).
  set (l1 := firstn k ths) in *. set (l2 := skipn (S k) ths) in *.
  clearbody l1 l2. subst ths.
  exact (Hstep s w l1 th l2 Hc).
Qed.

Lemma sys_run_preserves nd render (P : system -> Prop) :
  (forall k c, P c -> P (sys_step nd render k c)) ->
  forall sched c, P c -> P (sys_run nd render sched c).
Proof.
  intros Hstep sched. induction sched as [|k sched IH]; intros c Hc; cbn; auto.
Qed.

(** X11: mutual exclusion.  Whatever the jobs, the threshold, the sink and
    the build, if the lock is free when the threads start, then under every
    schedule at most one thread is between the successful compare-and-swap
    and the release, the lock holds 1 exactly while one is, and no thread
    has changed the sink or the threshold. *)
Theorem mutual_exclusion
    (nd : bool) (render : string -> va_list -> string)
    (jobs : list (emission * string * va_list)) (s : logger)
    (sched : list nat) :
  g_lock s = 0 ->
  let c := sys_run nd render sched (spawn jobs s) in
  (holders (threads c) <= 1)%nat /\
  g_lock (shared c) = Z.of_nat (holders (threads c)) /\
  g_output (shared c) = g_output s /\
  g_level (shared c) = g_level s.
Proof.
  intros Hfree.
  set (P := fun c : system =>
              (holders (threads c) <= 1)%nat /\
              g_lock (shared c) = Z.of_nat (holders (threads c)) /\
              g_output (shared c) = g_output s /\
              g_level (shared c) = g_level s).
  apply (sys_run_preserves nd render P).
  - apply (sys_step_preserves nd render P). unfold P. intros s1 w l1 th l2.
    cbn [shared wire threads]. rewrite holders_middle.
    intros (Hm & Hk & Ho & Hl). unfold thread_step.
    destruct (th_pc th) as [| | | | |g n| | | |] eqn:Epc;
      unfold in_cs in Hm, Hk; rewrite Epc in Hm, Hk;
      repeat match goal with
             | |- context [sync_bool_compare_and_swap ?a ?b ?c] =>
                 unfold sync_bool_compare_and_swap;
                 destruct (Z.eqb_spec a b)
             | |- context [match g_output ?x with _ => _ end] =>
                 destruct (g_output x) eqn:?
             | |- context [match nth_error ?l ?n with _ => _ end] =>
                 destruct (nth_error l n)
             | |- context [if ?b then _ else _] => destruct b
             end;
      unfold spinlock_unlock;
      cbn [shared wire threads with_lock g_lock g_output g_level];
      rewrite holders_middle; unfold in_cs; cbn [at_pc th_pc];
      repeat split; auto; try congruence; lia.
  - unfold P. rewrite spawn_holders. cbn [shared spawn].
    repeat split; auto.
Qed.

Lemma mutual_exclusion_witness :
  let c := sys_run false printf_text (firstn 12 demo_sched)
             (spawn demo_jobs demo_logger) in
  holders (threads c) = 1%nat /\
  g_lock (shared c) = 1.
Proof.
  split; [reflexivity|].
  rewrite (proj1 (proj2 (mutual_exclusion false printf_text demo_jobs
                           demo_logger (firstn 12 demo_sched) eq_refl))).
  reflexivity.
Defined.

(** X12: threads whose emissions are below the threshold stay off the lock
    and off the stream: if every job is below the threshold then, under
    every schedule and whatever the state of the lock, the globals are
    untouched, no byte is written, and each thread is either about to make
    its fast-path test or has returned. *)
Theorem filtered_threads_are_quiet
    (nd : bool) (render : string -> va_list -> string)
    (jobs : list (emission * string * va_list)) (s : logger)
    (sched : list nat) :
  (forall j, In j jobs -> severity (fst (fst j)) < g_level s) ->
  let c := sys_run nd render sched (spawn jobs s) in
  shared c = s /\
  wire c = [] /\
  Forall (fun th => th_pc th = PFast \/ th_pc th = PDone) (threads c).
Proof.
  intros Hsev.
  set (P := fun c : system =>
              shared c = s /\ wire c = [] /\
              Forall (fun th => severity (th_op th) < g_level s /\
                                (th_pc th = PFast \/ th_pc th = PDone))
                     (threads c)).
  assert (HP : P (sys_run nd render sched (spawn jobs s))).
  { apply (sys_run_preserves nd render P).
    - apply (sys_step_preserves nd render P). unfold P.
      intros s1 w l1 th l2.
      cbn [shared wire threads]. intros (-> & -> & Hths).
      apply Forall_middle in Hths. destruct Hths as (F1 & [Hlt Hpc] & F2).
      unfold thread_step.
      destruct Hpc as [Epc|Epc]; rewrite Epc.
      + apply Z.ltb_lt in Hlt. rewrite Hlt. cbn [shared wire threads].
        repeat split; auto. apply Forall_middle. repeat split; auto.
        apply Z.ltb_lt. exact Hlt.
      + cbn [shared wire threads]. repeat split; auto.
        apply Forall_middle. repeat split; auto.
    - unfold P. cbn [shared wire threads spawn]. repeat split; auto.
      apply Forall_forall. intros th Hth. apply in_map_iff in Hth.
      destruct Hth as (j & <- & Hj). cbn. split; [exact (Hsev j Hj)|auto]. }
  destruct HP as (H1 & H2 & H3). repeat split; auto.
  eapply Forall_impl; [|exact H3]. cbv beta. tauto.
Qed.

Lemma quiet_jobs_below_threshold :
  forall j, In j quiet_jobs -> severity (fst (fst j)) < g_level held_logger.
Proof.
  intros j [<-|[<-|[]]]; reflexivity.
Defined.

Lemma filtered_threads_are_quiet_witness :
  let c := sys_run false printf_text [0; 1; 1; 0]%nat
             (spawn quiet_jobs held_logger) in
  all_done c = true /\ shared c = held_logger /\ wire c = [].
Proof.
  split; [reflexivity|].
  destruct (filtered_threads_are_quiet false printf_text quiet_jobs
              held_logger [0; 1; 1; 0]%nat quiet_jobs_below_threshold)
    as (H1 & H2 & _).
  split; [exact H1|exact H2].
Defined.

(** X13: without a sink, in a build with [NDEBUG], no thread writes and
    none aborts: if [g_output] is [NULL] when the threads start then,
    whatever the jobs and the schedule, no byte reaches any stream,
    [g_output] stays [NULL] and no thread is at a failed assertion. *)
Theorem no_sink_no_bytes
    (render : string -> va_list -> string)
    (jobs : list (emission * string * va_list)) (s : logger)
    (sched : list nat) :
  g_output s = None ->
  wire (sys_run true render sched (spawn jobs s)) = [] /\
  g_output (shared (sys_run true render sched (spawn jobs s))) = None /\
  Forall (fun th => th_pc th <> PAbort)
         (threads (sys_run true render sched (spawn jobs s))).
Proof.
  intros Hout.
  set (P := fun c : system =>
              g_output (shared c) = None /\ wire c = [] /\
              Forall (fun th => th_pc th <> PAbort /\
                                forall g n, th_pc th <> PWrite g n)
                     (threads c)).
  assert (HP : P (sys_run true render sched (spawn jobs s))).
  { apply (sys_run_preserves true render P).
    - apply (sys_step_preserves true render P). unfold P.
      intros s1 w l1 th l2. cbn [shared wire threads].
      intros (Ho & -> & Hths).
      apply Forall_middle in Hths. destruct Hths as (F1 & [Hab Hpc] & F2).
      unfold thread_step.
      destruct (th_pc th) as [| | | | |g n| | | |] eqn:Epc;
        try (exfalso; exact (Hpc g n eq_refl));
        try (exfalso; exact (Hab eq_refl));
        rewrite ?Ho; cbn [orb];
        repeat match goal with
               | |- context [sync_bool_compare_and_swap ?a ?b ?c] =>
                   unfold sync_bool_compare_and_swap;
                   destruct (Z.eqb_spec a b)
               | |- context [if ?b then _ else _] => destruct b
               end;
        cbn [shared wire threads with_lock g_lock g_output g_level];
        (split; [exact Ho|]); (split; [reflexivity|]);
        apply Forall_middle; (split; [exact F1|]); (split; [|exact F2]);
        cbn [at_pc th_pc]; (split; [discriminate|intros; discriminate]).
    - unfold P. cbn [shared wire threads spawn].
      split; [exact Hout|]. split; [reflexivity|].
      apply Forall_forall. intros th Hth. apply in_map_iff in Hth.
      destruct Hth as (j & <- & _). cbn.
      split; [discriminate|intros; discriminate]. }
  destruct HP as (H1 & H2 & H3). split; [exact H2|]. split; [exact H1|].
  eapply Forall_impl; [|exact H3]. cbv beta. tauto.
Qed.

Lemma no_sink_no_bytes_witness :
  let s := {| g_lock := 0; g_output := None; g_level := ZLOG_TRACE |} in
  let c := sys_run true printf_text demo_sched (spawn demo_jobs s) in
  all_done c = true /\ wire c = [].
Proof.
  split; [reflexivity|].
  exact (proj1 (no_sink_no_bytes printf_text demo_jobs
                  {| g_lock := 0; g_output := None; g_level := ZLOG_TRACE |}
                  demo_sched eq_refl)).
Defined.

(** ** Threads: no deadlock *)

Lemma remaining_middle render l1 th l2 :
  remaining render (l1 ++ th :: l2)
  = (remaining render l1 + (rank render th + remaining render l2))%nat.
Proof. unfold remaining. rewrite map_app, list_sum_app. reflexivity. Qed.

Lemma exists_holder ths :
  holders ths <> 0%nat ->
  exists l1 th l2, ths = l1 ++ th :: l2 /\ in_cs th = true.
Proof.
  induction ths as [|th ths IH]; [intros []; reflexivity|].
  rewrite holders_cons. destruct (in_cs th) eqn:Ecs.
  - intros _. exists [], th, ths. auto.
  - intros H. destruct (IH H) as (l1 & th' & l2 & -> & E).
    exists (th :: l1), th', l2. auto.
Qed.

Lemma exists_running ths :
  forallb done_th ths = false ->
  exists l1 th l2, ths = l1 ++ th :: l2 /\ done_th th = false.
Proof.
  induction ths as [|th ths IH]; [discriminate|].
  cbn [forallb]. destruct (done_th th) eqn:Ed.
  - intros H. destruct (IH H) as (l1 & th' & l2 & -> & E).
    exists (th :: l1), th', l2. auto.
  - intros _. exists [], th, ths. auto.
Qed.

(** The holder of the lock, or any thread when the lock is free, gets
    nearer to its return with each of its steps. *)
Lemma step_rank nd render f lvl th s :
  thread_ok f lvl th ->
  g_output s = Some f ->
  g_level s = lvl ->
  in_cs th = true \/ (g_lock s = 0 /\ done_th th = false) ->
  (rank render (at_pc (snd (thread_step nd render th s)) th)
   < rank render th)%nat.
Proof.
  intros [Hsev Hpc] Ho Hl Hturn.
  unfold thread_step, rank, in_cs, done_th in *.
  change (text_of render (at_pc ?p th)) with (text_of render th).
  destruct (th_pc th) as [| | | | |g n| | | |] eqn:Epc; cbn [at_pc th_pc].
  - rewrite Hl. destruct (Z.ltb_spec (severity (th_op th)) lvl); [lia|].
    cbn. lia.
  - rewrite Ho. cbn [is_null negb]. rewrite orb_true_r. cbn. lia.
  - destruct Hturn as [|[Hfree _]]; [discriminate|].
    unfold sync_bool_compare_and_swap. rewrite Hfree. cbn. lia.
  - cbn. lia.
  - rewrite Ho, Hl.
    destruct (Z.geb_spec (severity (th_op th)) lvl); [|lia]. cbn. lia.
  - destruct (nth_error (text_of render th) n) as [c|] eqn:Hnth; cbn; [|lia].
    assert (n < List.length (text_of render th))%nat; [|lia].
    apply nth_error_Some. rewrite Hnth. discriminate.
  - cbn. lia.
  - cbn. lia.
  - destruct Hturn as [|[_ ?]]; discriminate.
  - destruct Hpc.
Qed.

Lemma progress nd render f lvl c :
  sys_inv render f lvl c ->
  all_done c = false ->
  exists k,
    (remaining render (threads (sys_step nd render k c))
     < remaining render (threads c))%nat.
Proof.
  intros [Ho Hl Ht Hk Hm _] Hrun. destruct c as [s w ths].
  unfold all_done in Hrun. cbn [shared wire threads] in *.
  assert (Hsplit : exists l1 th l2,
             ths = l1 ++ th :: l2 /\
             (in_cs th = true \/ (g_lock s = 0 /\ done_th th = false))).
  { destruct (Nat.eq_dec (holders ths) 0) as [H0|H1].
    - destruct (exists_running ths Hrun) as (l1 & th & l2 & E & Hd).
      exists l1, th, l2. split; [exact E|]. right.
      rewrite Hk, H0. auto.
    - destruct (exists_holder ths H1) as (l1 & th & l2 & E & Hc).
      exists l1, th, l2. auto. }
  destruct Hsplit as (l1 & th & l2 & -> & Hturn).
  exists (List.length l1). rewrite sys_step_middle.
  apply Forall_middle in Ht. destruct Ht as (_ & Hok & _).
  assert (Hr := step_rank nd render f lvl th s Hok Ho Hl Hturn).
  destruct (thread_step nd render th s) as [[s' out] p'].
  cbn [snd threads] in *. rewrite !remaining_middle. lia.
Qed.

Lemma completes_from nd render f lvl :
  forall m c,
    sys_inv render f lvl c ->
    (remaining render (threads c) <= m)%nat ->
    exists sched, all_done (sys_run nd render sched c) = true.
Proof.
  induction m as [|m IH]; intros c Hinv Hm;
    destruct (all_done c) eqn:Hdone;
    try (exists []; exact Hdone);
    destruct (progress nd render f lvl c Hinv Hdone) as [k Hk]; [lia|].
  destruct (IH (sys_step nd render k c)) as [sched Hsched].
  - apply sys_step_inv. exact Hinv.
  - lia.
  - exists (k :: sched). exact Hsched.
Qed.

(** X14: no deadlock.  The logger is initialised with a sink and every
    thread performs an emission at or above the threshold, as in C4.
    However the threads have been scheduled so far, the schedule can be
    continued so that every thread returns: no interleaving of the spin
    loops, the writes and the releases leaves a thread stuck for good. *)
Theorem no_deadlock
    (nd : bool) (render : string -> va_list -> string)
    (jobs : list (emission * string * va_list)) (s : logger) (f : FILE)
    (sched : list nat) :
  g_lock s = 0 ->
  g_output s = Some f ->
  (forall j, In j jobs -> g_level s <= severity (fst (fst j))) ->
  exists sched',
    all_done (sys_run nd render (sched ++ sched') (spawn jobs s)) = true.
Proof.
  intros Hfree Hout Hsev.
  assert (Hinv := sys_run_inv nd render f (g_level s) sched _
                    (spawn_inv render jobs s f Hfree Hout Hsev)).
  destruct (completes_from nd render f (g_level s) _ _ Hinv (Nat.le_refl _))
    as [sched' H].
  exists sched'. rewrite sys_run_app. exact H.
Qed.

Lemma no_deadlock_witness :
  all_done (sys_run false printf_text (firstn 12 demo_sched)
              (spawn demo_jobs demo_logger)) = false /\
  exists sched',
    all_done (sys_run false printf_text (firstn 12 demo_sched ++ sched')
                (spawn demo_jobs demo_logger)) = true.
Proof.
  split; [reflexivity|].
  exact (no_deadlock false printf_text demo_jobs demo_logger 7%nat
           (firstn 12 demo_sched) eq_refl eq_refl demo_jobs_at_threshold).
Defined.

(** ** Histories of calls: what reaches the streams *)

(** What one call adds to the trace: nothing, or one write and its flush on
    the sink, or the [fclose] of a sink that is not the default error
    stream, or the diagnostic of a failed [assert]. *)
Lemma do_call_trace nd fuel render c s t :
  exists extra,
    trace_of (do_call nd fuel render c s t) = t ++ extra /\
    (extra = [] \/
     (exists f fmt args,
        g_output s = Some f /\ extra = write_events render f fmt args) \/
     (exists f, g_output s = Some f /\ f <> stderr /\ extra = [Ev_fclose f]) \/
     extra = [Ev_assert_fail]).
Proof.
  destruct c as [out level| | |level|e fmt args]; cbn [do_call].
  - exists []. rewrite app_nil_r. split; [|auto].
    unfold zlog_init, bind, lock_g_lock.
    destruct (spinlock_lock fuel (g_lock s)); reflexivity.
  - unfold zlog_shutdown, bind, read, lock_g_lock.
    destruct (spinlock_lock fuel (g_lock s));
      [|exists []; rewrite app_nil_r; auto].
    cbn. destruct (g_output s) as [g|] eqn:Hout; cbn;
      [|exists []; rewrite app_nil_r; auto].
    destruct (Nat.eqb_spec g stderr) as [E|N]; cbn;
      [exists []; rewrite app_nil_r; auto|].
    exists [Ev_fclose g]. split; [reflexivity|]. right. right. left. eauto.
  - exists []. rewrite app_nil_r. auto.
  - exists []. rewrite app_nil_r. split; [|auto].
    unfold zlog_set_level, bind, lock_g_lock.
    destruct (spinlock_lock fuel (g_lock s)); reflexivity.
  - destruct (zlog_emit_cases nd fuel render e fmt args s t)
      as [_ [Ht|[(g & Hout & Ht)|(_ & _ & Ho)]]].
    + exists []. rewrite app_nil_r. auto.
    + exists (write_events render g fmt args). split; [exact Ht|].
      right. left. eauto.
    + exists [Ev_assert_fail]. rewrite Ho. auto 6.
Qed.

Lemma flushed_from_app pending t1 t2 :
  flushed_from pending t1 = true ->
  flushed_from pending (t1 ++ t2) = flushed_from None t2.
Proof.
  revert pending.
  induction t1 as [|[f text|f|f|] t1 IH]; intros [g|]; cbn;
    try discriminate; auto.
  intros H. apply andb_true_iff in H. destruct H as [-> H]. cbn. auto.
Qed.

Lemma run_flushed nd fuel render cs :
  forall s t,
    flushed t = true ->
    flushed (trace_of (run nd fuel render cs s t)) = true.
Proof.
  induction cs as [|c cs IH]; intros s t Ht; [exact Ht|].
  rewrite run_cons.
  destruct (do_call_trace nd fuel render c s t) as (extra & Hx & Hextra).
  assert (Hc : flushed (trace_of (do_call nd fuel render c s t)) = true).
  { rewrite Hx. unfold flushed. rewrite (flushed_from_app _ _ _ Ht).
    destruct Hextra
      as [->|[(f & fmt & args & _ & ->)|[(f & _ & _ & ->)| ->]]];
      cbn; rewrite ?Nat.eqb_refl; reflexivity. }
  destruct (do_call nd fuel render c s t) as [[] s' t'|s' t'|s' t'];
    cbn [trace_of] in *; auto.
Qed.

(** X15: flush on write.  In the trace of every history of calls from the
    initial state, however it ends, every [vfprintf] is followed at once by
    the [fflush] of the same stream: no text is left unflushed when another
    message is written or when [zlog_shutdown] closes the sink. *)
Theorem every_write_is_flushed
    (nd : bool) (fuel : nat) (render : string -> va_list -> string)
    (history : list call) :
  flushed (trace_of (run nd fuel render history logger0 [])) = true.
Proof. apply run_flushed. reflexivity. Qed.

Lemma run_writes nd fuel render cs :
  forall s t (Q : FILE -> Prop) f,
    (forall g, g_output s = Some g -> g = stderr \/ Q g) ->
    f <> stderr -> ~ Q f -> ~ given cs f ->
    writes_to f (trace_of (run nd fuel render cs s t)) = writes_to f t.
Proof.
  induction cs as [|c cs IH]; intros s t Q f Hsink Hne HQ Hg; [reflexivity|].
  rewrite run_cons.
  assert (Hnot : g_output s <> Some f).
  { intros H. destruct (Hsink f H); contradiction. }
  destruct (do_call_trace nd fuel render c s t) as (extra & Hx & Hextra).
  assert (Hc : writes_to f (trace_of (do_call nd fuel render c s t))
               = writes_to f t).
  { rewrite Hx, writes_to_app.
    destruct Hextra
      as [->|[(g & fmt & args & Hout & ->)|[(g & _ & _ & ->)| ->]]];
      cbn; rewrite ?app_nil_r; auto.
    destruct (Nat.eqb_spec g f) as [E|_]; [|apply app_nil_r].
    subst g. contradiction. }
  assert (Hs := do_call_sink nd fuel render c s t).
  destruct (do_call nd fuel render c s t) as [[] s' t'|s' t'|s' t'];
    cbn [trace_of state_of] in *; auto.
  rewrite <- Hc.
  apply (IH s' t' (fun g => Q g \/ exists level, c = Call_init (Some g) level));
    auto.
  - intros g Hout. destruct (Hs g Hout) as [H|[H|H]]; auto.
    destruct (Hsink g H); auto.
  - intros [H|[level H]]; [contradiction|].
    apply Hg. exists level. left. exact H.
  - intros [level H]. apply Hg. exists level. right. exact H.
Qed.

(** X16: the logger writes only where it was told to: in every history of
    calls from the initial state, a stream that is neither the default error
    stream nor a stream handed to a [zlog_init] of the history receives no
    write. *)
Theorem run_writes_only_given
    (nd : bool) (fuel : nat) (render : string -> va_list -> string)
    (history : list call) (f : FILE) :
  f <> stderr ->
  ~ given history f ->
  writes_to f (trace_of (run nd fuel render history logger0 [])) = [].
Proof.
  intros Hne Hg.
  apply (run_writes nd fuel render history logger0 [] (fun _ => False) f);
    auto.
  intros g [=].
Qed.

Lemma run_writes_only_given_witness :
  let history := [Call_init (Some 7%nat) ZLOG_TRACE;
                  Call_emit Info "one" []; Call_init None ZLOG_TRACE;
                  Call_emit Info "two" []] in
  writes_to 7%nat (trace_of (run false 1 printf_text history logger0 []))
  = ["one"%string] /\
  writes_to stderr (trace_of (run false 1 printf_text history logger0 []))
  = ["two"%string] /\
  writes_to 8%nat (trace_of (run false 1 printf_text history logger0 []))
  = [].
Proof.
  split; [reflexivity|]. split; [reflexivity|].
  apply (run_writes_only_given false 1 printf_text
           [Call_init (Some 7%nat) ZLOG_TRACE;
            Call_emit Info "one" []; Call_init None ZLOG_TRACE;
            Call_emit Info "two" []] 8%nat).
  - discriminate.
  - intros [level [H|[H|[H|[H|[]]]]]]; discriminate.
Defined.

